(** * Quiz sampler and session state machine of [src/app/quiz/page.tsx]

    A shallow embedding of the weighted sampler [pickWeighted] (with the
    helpers [shuffle] and [clampInt]), of the session actions of
    [QuizPage] ([submit], [next], [restartQuizKeepQuestions], [reshuffle],
    [retryIncorrectOnly], the review-list jump) and of the data the page
    renders, followed by the properties the specification states about
    them. *)

From Stdlib Require Import ZArith List Lia Bool String Permutation.
From Stdlib Require Import PrimFloat FloatOps SpecFloat.
From stdpp Require Import base list strings gmap.

Set Warnings "-inexact-float".
Local Open Scope Z_scope.

(** ** JavaScript numbers

    A JS [number] is an IEEE 754 binary64 value.  Integer-valued numbers in
    the safe range are carried as [Z] (their sums and differences are exact
    there); the only fractional computation of the sampler, the product
    [size * weight], goes through the binary64 multiplication of the
    standard library's [SpecFloat], and [Math.round] is computed exactly on
    its result. *)
Module JSNumber.

Definition prec : Z := 53.
Definition emax : Z := 1024.

(** [Number.MAX_SAFE_INTEGER] *)
Definition MAX_SAFE_INTEGER : Z := 2 ^ 53 - 1.

(** The binary64 value of an integer (exact up to [MAX_SAFE_INTEGER]). *)
Definition of_int (z : Z) : spec_float := binary_normalize prec emax z 0 false.

(** [x * y] on numbers. *)
Definition mul (x y : spec_float) : spec_float := SFmul prec emax x y.

(** The value of a decimal literal [num / den], such as [0.3 = 3 / 10]:
    the binary64 number nearest to the fraction, which is what the
    correctly rounded division of the two integers returns. *)
Definition decimal (num den : Z) : spec_float :=
  SFdiv prec emax (of_int num) (of_int den).

(** [Math.round(x)]: the integer closest to [x], ties going toward
    +infinity, that is floor(x + 1/2) in exact arithmetic.  NaN and the
    infinities, which [Math.round] returns unchanged, have no integer
    value; they are sent to 0 and never arise from a safe integer times
    a weight ([mul_of_int_finite] below). *)
Definition Math_round (x : spec_float) : Z :=
  match x with
  | S754_finite s m e =>
      let n := if s then Z.neg m else Z.pos m in
      if 0 <=? e then n * 2 ^ e else (2 * n + 2 ^ (- e)) / 2 ^ (1 - e)
  | _ => 0
  end.

(** [Math.min] and [Math.max] on integer-valued numbers. *)
Definition Math_min (a b : Z) : Z := Z.min a b.
Definition Math_max (a b : Z) : Z := Z.max a b.

End JSNumber.
Import JSNumber.

(** ** Data model *)

Inductive Difficulty := easy | medium | hard.
Inductive Mode := balanced | exam.
Inductive Choice := A | B | C | D.

#[global] Instance Difficulty_eq_dec : EqDecision Difficulty.
Proof. solve_decision. Defined.
#[global] Instance Mode_eq_dec : EqDecision Mode.
Proof. solve_decision. Defined.
#[global] Instance Choice_eq_dec : EqDecision Choice.
Proof. solve_decision. Defined.

Definition correctChoiceToIndex (c : Choice) : Z :=
  match c with A => 0 | B => 1 | C => 2 | D => 3 end.

Definition indexToChoice (i : Z) : Choice :=
  if decide (i = 0) then A else if decide (i = 1) then B
  else if decide (i = 2) then C else D.

(** A row of the [questions] table. *)
Module DbRow.
Record t := {
  id : string;
  domain : string;
  difficulty : Difficulty;
  mode : Mode;
  question : string;
  choice_a : string;
  choice_b : string;
  choice_c : string;
  choice_d : string;
  correct_choice : Choice;
  explanation : option string }.
End DbRow.

Module Question.
Record t := {
  id : string;
  domain : string;
  difficulty : Difficulty;
  mode : Mode;
  question : string;
  choices : list string;
  correctIndex : Z;
  correctChoice : Choice;
  explanation : string }.
End Question.

(** The row mapping of [loadQuestions]. *)
Definition mapRow (r : DbRow.t) : Question.t :=
  {| Question.id := DbRow.id r;
     Question.domain := DbRow.domain r;
     Question.difficulty := DbRow.difficulty r;
     Question.mode := DbRow.mode r;
     Question.question := DbRow.question r;
     Question.choices :=
       [DbRow.choice_a r; DbRow.choice_b r; DbRow.choice_c r; DbRow.choice_d r];
     Question.correctIndex := correctChoiceToIndex (DbRow.correct_choice r);
     Question.correctChoice := DbRow.correct_choice r;
     Question.explanation := default "No explanation provided."%string (DbRow.explanation r) |}.

(** ** Randomness

    [Math.random()] returns a number in [[0, 1)], so
    [Math.floor(Math.random() * n)] is an integer in [[0, n)].  The source of
    randomness is the stream of its future draws; a draw below [n] takes
    the head of the stream reduced below [n] and leaves the tail.
    Computations that draw are functions of the stream. *)
Definition Rng : Type := nat -> nat.
Definition Rand (T : Type) : Type := Rng -> T * Rng.

#[global] Instance Rand_ret : MRet Rand := fun T x g => (x, g).
#[global] Instance Rand_bind : MBind Rand :=
  fun T U f m g => let '(x, g') := m g in f x g'.

Definition random_below (n : nat) : Rand nat :=
  fun g => ((g 0 `mod` n)%nat, fun k => g (S k)).

(** ** Arrays *)

(** [a[i]] for an integer index: [undefined] (here [None]) out of range. *)
Definition at_index {T} (a : list T) (i : Z) : option T :=
  if i <? 0 then None else a !! Z.to_nat i.

(** [[a[i], a[j]] = [a[j], a[i]]]: both reads happen before both writes.
    Inside [shuffle] both indices are in range. *)
Definition swap {T} (a : list T) (i j : nat) : list T :=
  match a !! i, a !! j with
  | Some ai, Some aj => <[j := ai]> (<[i := aj]> a)
  | _, _ => a
  end.

(** The position a relative index of [Array.prototype.slice] denotes:
    negative indices count from the end, and both ends are clamped. *)
Definition slice_index (len : nat) (k : Z) : nat :=
  if k <? 0 then Z.to_nat (Z.max (Z.of_nat len + k) 0)
  else Z.to_nat (Z.min k (Z.of_nat len)).

(** [a.slice(start, end)] *)
Definition slice {T} (a : list T) (start end_ : Z) : list T :=
  let k := slice_index (length a) start in
  let final := slice_index (length a) end_ in
  take (final - k) (drop k a).

(** [a.slice(start)] *)
Definition slice_from {T} (a : list T) (start : Z) : list T :=
  slice a start (Z.of_nat (length a)).

(** The loop of [shuffle], from index [i] down to 1. *)
Fixpoint shuffle_from {T} (i : nat) (a : list T) : Rand (list T) :=
  match i with
  | O => mret a
  | S i' =>
      j ← random_below (i + 1);
      shuffle_from i' (swap a i j)
  end.

Definition shuffle {T} (arr : list T) : Rand (list T) :=
  shuffle_from (length arr - 1) arr.

Definition clampInt (n min max : Z) : Z := Math_max min (Math_min max n).

(** ** The sampler *)

(** [buckets[d]] after the loop [for (const q of questions)
    buckets[q.difficulty].push(q)]. *)
Definition bucket (d : Difficulty) (questions : list Question.t) : list Question.t :=
  filter (fun q => Question.difficulty q = d) questions.

(** The weights of [pickWeighted]: [{ easy: 0.1, medium: 0.45, hard: 0.45 }]
    in exam mode, [{ easy: 0.3, medium: 0.5, hard: 0.2 }] otherwise. *)
Record Weights := { w_easy : spec_float; w_medium : spec_float; w_hard : spec_float }.

Definition weights (mode : Mode) : Weights :=
  match mode with
  | exam =>
      {| w_easy := decimal 1 10; w_medium := decimal 45 100; w_hard := decimal 45 100 |}
  | balanced =>
      {| w_easy := decimal 3 10; w_medium := decimal 5 10; w_hard := decimal 2 10 |}
  end.

Definition targetEasy (size : Z) (mode : Mode) : Z :=
  Math_round (mul (of_int size) (w_easy (weights mode))).
Definition targetMed (size : Z) (mode : Mode) : Z :=
  Math_round (mul (of_int size) (w_medium (weights mode))).
(** hard is remainder (avoids rounding drift) *)
Definition targetHard (size : Z) (mode : Mode) : Z :=
  size - targetEasy size mode - targetMed size mode.

Definition pickWeighted (questions : list Question.t) (size : Z) (mode : Mode)
  : Rand (list Question.t) :=
  b_easy ← shuffle (bucket easy questions);
  b_medium ← shuffle (bucket medium questions);
  b_hard ← shuffle (bucket hard questions);
  let takeEasy := Math_min (targetEasy size mode) (Z.of_nat (length b_easy)) in
  let takeMed := Math_min (targetMed size mode) (Z.of_nat (length b_medium)) in
  let takeHard := Math_min (targetHard size mode) (Z.of_nat (length b_hard)) in
  let picked :=
    slice b_easy 0 takeEasy ++ slice b_medium 0 takeMed ++ slice b_hard 0 takeHard in
  picked ←
    (if Z.of_nat (length picked) <? size then
       remainingPool ← shuffle (slice_from b_easy takeEasy ++
                                slice_from b_medium takeMed ++
                                slice_from b_hard takeHard);
       mret (picked ++ slice remainingPool 0 (size - Z.of_nat (length picked)))
     else mret picked);
  shuffled ← shuffle picked;
  mret (slice shuffled 0 size).

(** ** Session state

    The [useState] variables of [QuizPage] that the session logic reads or
    writes.  ([domainOptions] and [domainsLoading] only feed the domain
    drop-down.) *)
Inductive QuizSize := size5 | size10 | size25 | size50.

#[global] Instance QuizSize_eq_dec : EqDecision QuizSize.
Proof. solve_decision. Defined.

Definition QuizSize_value (n : QuizSize) : Z :=
  match n with size5 => 5 | size10 => 10 | size25 => 25 | size50 => 50 end.

Record State := {
  mode : Mode;
  quizSize : QuizSize;
  domain : string;
  loading : bool;
  saving : bool;
  error : option string;
  questions : list Question.t;
  index : Z;
  selectedIndex : option Z;
  submitted : bool;
  correctCount : Z;
  answeredCount : Z;
  incorrectIds : list string;
  showReview : bool;
  sessionId : string }.

(** The setters, one per state variable. *)
Definition setMode (v : Mode) (s : State) : State :=
  {| mode := v; quizSize := quizSize s; domain := domain s; loading := loading s;
     saving := saving s; error := error s; questions := questions s; index := index s;
     selectedIndex := selectedIndex s; submitted := submitted s;
     correctCount := correctCount s; answeredCount := answeredCount s;
     incorrectIds := incorrectIds s; showReview := showReview s; sessionId := sessionId s |}.
Definition setQuizSize (v : QuizSize) (s : State) : State :=
  {| mode := mode s; quizSize := v; domain := domain s; loading := loading s;
     saving := saving s; error := error s; questions := questions s; index := index s;
     selectedIndex := selectedIndex s; submitted := submitted s;
     correctCount := correctCount s; answeredCount := answeredCount s;
     incorrectIds := incorrectIds s; showReview := showReview s; sessionId := sessionId s |}.
Definition setDomain (v : string) (s : State) : State :=
  {| mode := mode s; quizSize := quizSize s; domain := v; loading := loading s;
     saving := saving s; error := error s; questions := questions s; index := index s;
     selectedIndex := selectedIndex s; submitted := submitted s;
     correctCount := correctCount s; answeredCount := answeredCount s;
     incorrectIds := incorrectIds s; showReview := showReview s; sessionId := sessionId s |}.
Definition setLoading (v : bool) (s : State) : State :=
  {| mode := mode s; quizSize := quizSize s; domain := domain s; loading := v;
     saving := saving s; error := error s; questions := questions s; index := index s;
     selectedIndex := selectedIndex s; submitted := submitted s;
     correctCount := correctCount s; answeredCount := answeredCount s;
     incorrectIds := incorrectIds s; showReview := showReview s; sessionId := sessionId s |}.
Definition setSaving (v : bool) (s : State) : State :=
  {| mode := mode s; quizSize := quizSize s; domain := domain s; loading := loading s;
     saving := v; error := error s; questions := questions s; index := index s;
     selectedIndex := selectedIndex s; submitted := submitted s;
     correctCount := correctCount s; answeredCount := answeredCount s;
     incorrectIds := incorrectIds s; showReview := showReview s; sessionId := sessionId s |}.
Definition setError (v : option string) (s : State) : State :=
  {| mode := mode s; quizSize := quizSize s; domain := domain s; loading := loading s;
     saving := saving s; error := v; questions := questions s; index := index s;
     selectedIndex := selectedIndex s; submitted := submitted s;
     correctCount := correctCount s; answeredCount := answeredCount s;
     incorrectIds := incorrectIds s; showReview := showReview s; sessionId := sessionId s |}.
Definition setQuestions (v : list Question.t) (s : State) : State :=
  {| mode := mode s; quizSize := quizSize s; domain := domain s; loading := loading s;
     saving := saving s; error := error s; questions := v; index := index s;
     selectedIndex := selectedIndex s; submitted := submitted s;
     correctCount := correctCount s; answeredCount := answeredCount s;
     incorrectIds := incorrectIds s; showReview := showReview s; sessionId := sessionId s |}.
Definition setIndex (v : Z) (s : State) : State :=
  {| mode := mode s; quizSize := quizSize s; domain := domain s; loading := loading s;
     saving := saving s; error := error s; questions := questions s; index := v;
     selectedIndex := selectedIndex s; submitted := submitted s;
     correctCount := correctCount s; answeredCount := answeredCount s;
     incorrectIds := incorrectIds s; showReview := showReview s; sessionId := sessionId s |}.
Definition setSelectedIndex (v : option Z) (s : State) : State :=
  {| mode := mode s; quizSize := quizSize s; domain := domain s; loading := loading s;
     saving := saving s; error := error s; questions := questions s; index := index s;
     selectedIndex := v; submitted := submitted s;
     correctCount := correctCount s; answeredCount := answeredCount s;
     incorrectIds := incorrectIds s; showReview := showReview s; sessionId := sessionId s |}.
Definition setSubmitted (v : bool) (s : State) : State :=
  {| mode := mode s; quizSize := quizSize s; domain := domain s; loading := loading s;
     saving := saving s; error := error s; questions := questions s; index := index s;
     selectedIndex := selectedIndex s; submitted := v;
     correctCount := correctCount s; answeredCount := answeredCount s;
     incorrectIds := incorrectIds s; showReview := showReview s; sessionId := sessionId s |}.
Definition setCorrectCount (v : Z) (s : State) : State :=
  {| mode := mode s; quizSize := quizSize s; domain := domain s; loading := loading s;
     saving := saving s; error := error s; questions := questions s; index := index s;
     selectedIndex := selectedIndex s; submitted := submitted s;
     correctCount := v; answeredCount := answeredCount s;
     incorrectIds := incorrectIds s; showReview := showReview s; sessionId := sessionId s |}.
Definition setAnsweredCount (v : Z) (s : State) : State :=
  {| mode := mode s; quizSize := quizSize s; domain := domain s; loading := loading s;
     saving := saving s; error := error s; questions := questions s; index := index s;
     selectedIndex := selectedIndex s; submitted := submitted s;
     correctCount := correctCount s; answeredCount := v;
     incorrectIds := incorrectIds s; showReview := showReview s; sessionId := sessionId s |}.
Definition setIncorrectIds (v : list string) (s : State) : State :=
  {| mode := mode s; quizSize := quizSize s; domain := domain s; loading := loading s;
     saving := saving s; error := error s; questions := questions s; index := index s;
     selectedIndex := selectedIndex s; submitted := submitted s;
     correctCount := correctCount s; answeredCount := answeredCount s;
     incorrectIds := v; showReview := showReview s; sessionId := sessionId s |}.
Definition setShowReview (v : bool) (s : State) : State :=
  {| mode := mode s; quizSize := quizSize s; domain := domain s; loading := loading s;
     saving := saving s; error := error s; questions := questions s; index := index s;
     selectedIndex := selectedIndex s; submitted := submitted s;
     correctCount := correctCount s; answeredCount := answeredCount s;
     incorrectIds := incorrectIds s; showReview := v; sessionId := sessionId s |}.
Definition setSessionId (v : string) (s : State) : State :=
  {| mode := mode s; quizSize := quizSize s; domain := domain s; loading := loading s;
     saving := saving s; error := error s; questions := questions s; index := index s;
     selectedIndex := selectedIndex s; submitted := submitted s;
     correctCount := correctCount s; answeredCount := answeredCount s;
     incorrectIds := incorrectIds s; showReview := showReview s; sessionId := v |}.

(** [const total = questions.length] *)
Definition total (s : State) : Z := Z.of_nat (length (questions s)).

(** [const q = questions[index]] *)
Definition current (s : State) : option Question.t := at_index (questions s) (index s).

(** [prev.includes(x)] *)
Definition includes (prev : list string) (x : string) : bool := bool_decide (x ∈ prev).

(** The state the first render starts from; [sess] is the token the
    [useState] initialiser generated. *)
Definition initialState (sess : string) : State :=
  {| mode := balanced; quizSize := size25; domain := "all"; loading := true;
     saving := false; error := None; questions := []; index := 0;
     selectedIndex := None; submitted := false; correctCount := 0; answeredCount := 0;
     incorrectIds := []; showReview := false; sessionId := sess |}.

(** ** Actions

    A session token ([crypto.randomUUID()] or its timestamp fallback) comes
    from the environment: the actions that mint one take it as [newSess]. *)

(** [submit] after its guard, up to the first [await]. *)
Definition submit_body (q : Question.t) (sel : Z) (s : State) : State :=
  let s := setSubmitted true s in
  let s := setAnsweredCount (answeredCount s + 1) s in
  let chosen := indexToChoice sel in
  let correct := Question.correctChoice q in
  let correctBool := bool_decide (chosen = correct) in
  let s :=
    if correctBool then setCorrectCount (correctCount s + 1) s
    else setIncorrectIds
           (let prev := incorrectIds s in
            if includes prev (Question.id q) then prev else prev ++ [Question.id q]) s in
  setSaving true s.

(** [submit] after the awaited [persistAttempt] and [upsertDomainStats]
    (they write to the remote store only): [index0] and [total0] are the
    [index] and [total] of the render whose handler is running. *)
Definition submit_end (index0 total0 : Z) (s : State) : State :=
  let s := setSaving false s in
  if decide (index0 = total0 - 1) then setShowReview true s else s.

Definition submit (s : State) : State :=
  match current s, selectedIndex s with
  | Some q, Some sel =>
      if submitted s then s
      else submit_end (index s) (total s) (submit_body q sel s)
  | _, _ => s
  end.

Definition next (s : State) : State :=
  if negb (submitted s) then s
  else if index s <? total s - 1 then
    setSubmitted false (setSelectedIndex None (setIndex (index s + 1) s))
  else setShowReview true s.

Definition restartQuizKeepQuestions (newSess : string) (s : State) : State :=
  let s := setIndex 0 s in
  let s := setSelectedIndex None s in
  let s := setSubmitted false s in
  let s := setCorrectCount 0 s in
  let s := setAnsweredCount 0 s in
  let s := setIncorrectIds [] s in
  let s := setShowReview false s in
  setSessionId newSess s.

Definition reshuffle (newSess : string) (s : State) : Rand State :=
  shuffled ← shuffle (questions s);
  mret (restartQuizKeepQuestions newSess (setQuestions shuffled s)).

Definition retryIncorrectOnly (newSess : string) (s : State) : Rand State :=
  let missedSet : gset string := list_to_set (incorrectIds s) in
  let filtered := filter (fun qq => Question.id qq ∈ missedSet) (questions s) in
  shuffled ← shuffle filtered;
  let s := setQuestions shuffled s in
  let s := setIndex 0 s in
  let s := setSelectedIndex None s in
  let s := setSubmitted false s in
  let s := setCorrectCount 0 s in
  let s := setAnsweredCount 0 s in
  let s := setIncorrectIds [] s in
  let s := setShowReview false s in
  mret (setSessionId newSess s).

(** [loadQuestions(selectedMode)], with the answer of the remote query:
    an error message or the rows. *)
Definition loadQuestions (selectedMode : Mode) (res : string + list DbRow.t)
    (newSess : string) (s : State) : Rand State :=
  let s := setLoading true s in
  let s := setError None s in
  match res with
  | inl message =>
      let s := setError (Some message) s in
      let s := setQuestions [] s in
      mret (setLoading false s)
  | inr rows =>
      let mapped := map mapRow rows in
      picked ← pickWeighted mapped (clampInt (QuizSize_value (quizSize s)) 1 500) selectedMode;
      let s := setQuestions picked s in
      let s := setIndex 0 s in
      let s := setSelectedIndex None s in
      let s := setSubmitted false s in
      let s := setCorrectCount 0 s in
      let s := setAnsweredCount 0 s in
      let s := setIncorrectIds [] s in
      let s := setShowReview false s in
      let s := setSessionId newSess s in
      mret (setLoading false s)
  end.

(** The [onClick] of a choice button. *)
Definition selectChoice (idx : Z) (s : State) : State :=
  if submitted s then s else setSelectedIndex (Some idx) s.

(** [a.findIndex(p)] *)
Fixpoint findIndex_from {T} (p : T -> bool) (a : list T) (i : Z) : Z :=
  match a with
  | [] => -1
  | x :: a' => if p x then i else findIndex_from p a' (i + 1)
  end.
Definition findIndex {T} (p : T -> bool) (a : list T) : Z := findIndex_from p a 0.

(** [const missed = questions.filter((qq) => incorrectIds.includes(qq.id))] *)
Definition missed (s : State) : list Question.t :=
  filter (fun qq => includes (incorrectIds s) (Question.id qq) = true) (questions s).

(** The [onClick] of an entry [m] of the review list. *)
Definition jumpToMissed (m : Question.t) (s : State) : State :=
  let idx := findIndex (fun qq => bool_decide (Question.id qq = Question.id m)) (questions s) in
  let s := setShowReview false s in
  let s := setIndex idx s in
  let s := setSelectedIndex None s in
  setSubmitted false s.

(** ** Screens and events *)

(** Which of the five returns of the component renders.  [if (error)]
    tests a string: the empty message is falsy. *)
Inductive Screen := LoadingScreen | ErrorScreen | EmptyScreen | ReviewScreen | QuizScreen.

Definition truthy (e : option string) : bool :=
  match e with Some m => negb (bool_decide (m = ""%string)) | None => false end.

Definition screen (s : State) : Screen :=
  if loading s then LoadingScreen
  else if truthy (error s) then ErrorScreen
  else match current s with
       | None => EmptyScreen
       | Some _ => if showReview s then ReviewScreen else QuizScreen
       end.

(** What the user and the environment can do.  Events that start a load
    carry the answer of the query and the token of the new session; the
    load is taken as one step. *)
Inductive Event :=
| Mounted (res : string + list DbRow.t) (newSess : string)
| ClickChoice (idx : nat)
| ClickSubmit
| ClickNext
| ClickReshuffle (newSess : string)
| ClickReload (res : string + list DbRow.t) (newSess : string)
| ClickMode (m : Mode) (res : string + list DbRow.t) (newSess : string)
| ClickQuizSize (n : QuizSize) (res : string + list DbRow.t) (newSess : string)
| SelectDomain (d : string) (res : string + list DbRow.t) (newSess : string)
| ClickRestart (newSess : string)
| ClickRetryIncorrect (newSess : string)
| ClickBackToQuiz
| ClickMissed (i : nat).

(** An event reaches its handler only if its control is on the screen
    and not [disabled]; otherwise nothing happens. *)
Definition dispatch (ev : Event) (s : State) : Rand State :=
  match screen s, ev with
  | LoadingScreen, Mounted res newSess => loadQuestions (mode s) res newSess s
  | QuizScreen, ClickChoice idx =>
      match current s with
      | Some q =>
          if bool_decide (idx < length (Question.choices q))%nat && negb (submitted s)
          then mret (selectChoice (Z.of_nat idx) s) else mret s
      | None => mret s
      end
  | QuizScreen, ClickSubmit =>
      if bool_decide (selectedIndex s = None) || submitted s then mret s
      else mret (submit s)
  | QuizScreen, ClickNext =>
      if negb (submitted s) then mret s else mret (next s)
  | QuizScreen, ClickReshuffle newSess => reshuffle newSess s
  | QuizScreen, ClickReload res newSess => loadQuestions (mode s) res newSess s
  | QuizScreen, ClickMode m res newSess =>
      if decide (m = mode s) then mret s
      else loadQuestions m res newSess (setMode m s)
  | QuizScreen, ClickQuizSize n res newSess =>
      if decide (n = quizSize s) then mret s
      else loadQuestions (mode s) res newSess (setQuizSize n s)
  | QuizScreen, SelectDomain d res newSess =>
      if decide (d = domain s) then mret s
      else loadQuestions (mode s) res newSess (setDomain d s)
  | ReviewScreen, ClickRestart newSess => mret (restartQuizKeepQuestions newSess s)
  | ReviewScreen, ClickRetryIncorrect newSess =>
      if bool_decide (length (incorrectIds s) = 0%nat) then mret s
      else retryIncorrectOnly newSess s
  | ReviewScreen, ClickBackToQuiz => mret (setShowReview false s)
  | ReviewScreen, ClickMissed i =>
      match missed s !! i with
      | Some m => mret (jumpToMissed m s)
      | None => mret s
      end
  | _, _ => mret s
  end.

(** ** What the page shows

    The data-dependent content of each screen, as the JSX computes it.
    Static text and styling that depend on no state are left out, and the
    progress bar is represented by [index] and [total], of which it is a
    function. *)

Local Open Scope string_scope.

(** [const isCorrect = !!q && selectedIndex !== null &&
    selectedIndex === q.correctIndex] *)
Definition isCorrect (s : State) : bool :=
  match current s, selectedIndex s with
  | Some q, Some sel => bool_decide (sel = Question.correctIndex q)
  | _, _ => false
  end.

Definition isExamLock (s : State) : bool := bool_decide (mode s = exam).

Definition choiceClassName (isExamLock submitted isSelected showCorrect showWrong : bool)
  : string :=
  let className := "rounded-xl border px-4 py-3 text-left transition select-none" in
  let className := if negb submitted then className +:+ " hover:opacity-90" else className in
  let className :=
    if negb submitted && isSelected then className +:+ " ring-2 ring-offset-2"
    else className in
  if negb isExamLock && submitted then
    if showCorrect then className +:+ " border-green-500/70 bg-green-500/10"
    else if showWrong then className +:+ " border-red-500/70 bg-red-500/10"
    else className +:+ " opacity-70"
  else if isExamLock && submitted then className +:+ " opacity-80"
  else className.

(** One choice button. *)
Record ChoiceView := {
  cv_key : Z;
  cv_text : string;
  cv_className : string;
  cv_disabled : bool;
  cv_correctBadge : bool;
  cv_incorrectBadge : bool }.

Definition renderChoice (s : State) (q : Question.t) (idx : Z) (choice : string)
  : ChoiceView :=
  let isSelected := bool_decide (selectedIndex s = Some idx) in
  let isCorrectChoice := bool_decide (idx = Question.correctIndex q) in
  let showCorrect := negb (isExamLock s) && submitted s && isCorrectChoice in
  let showWrong := negb (isExamLock s) && submitted s && isSelected && negb (isCorrect s) in
  {| cv_key := idx;
     cv_text := choice;
     cv_className := choiceClassName (isExamLock s) (submitted s) isSelected showCorrect showWrong;
     cv_disabled := submitted s;
     cv_correctBadge := negb (isExamLock s) && submitted s && showCorrect;
     cv_incorrectBadge := negb (isExamLock s) && submitted s && showWrong |}.

(** [q.choices.map((choice, idx) => ...)] *)
Definition renderChoices (s : State) (q : Question.t) : list ChoiceView :=
  imap (fun idx choice => renderChoice s q (Z.of_nat idx) choice) (Question.choices q).

(** The panel under the action buttons. *)
Inductive Feedback :=
| NoFeedback
| Explanation (isCorrect : bool) (explanation : string)
| ExamHint.

Definition renderFeedback (s : State) (q : Question.t) : Feedback :=
  if submitted s && negb (isExamLock s) then Explanation (isCorrect s) (Question.explanation q)
  else if submitted s && isExamLock s then ExamHint
  else NoFeedback.

Record QuizView := {
  qv_mode : Mode;
  qv_quizSize : QuizSize;
  qv_domain : string;
  qv_saving : bool;
  qv_loaded : Z;
  qv_score : Z * Z;
  qv_number : Z;
  qv_total : Z;
  qv_questionDomain : string;
  qv_question : string;
  qv_difficulty : Difficulty;
  qv_choices : list ChoiceView;
  qv_submitDisabled : bool;
  qv_nextDisabled : bool;
  qv_nextIsFinish : bool;
  qv_feedback : Feedback }.

Definition renderQuiz (s : State) (q : Question.t) : QuizView :=
  {| qv_mode := mode s;
     qv_quizSize := quizSize s;
     qv_domain := domain s;
     qv_saving := saving s;
     qv_loaded := total s;
     qv_score := (correctCount s, answeredCount s);
     qv_number := (index s + 1)%Z;
     qv_total := total s;
     qv_questionDomain := Question.domain q;
     qv_question := Question.question q;
     qv_difficulty := Question.difficulty q;
     qv_choices := renderChoices s q;
     qv_submitDisabled := bool_decide (selectedIndex s = None) || submitted s;
     qv_nextDisabled := negb (submitted s);
     qv_nextIsFinish := negb (index s <? total s - 1)%Z;
     qv_feedback := renderFeedback s q |}.

(** One entry of the review list. *)
Record MissedView := {
  mv_key : string;
  mv_domain : string;
  mv_difficulty : Difficulty;
  mv_number : Z;
  mv_question : string;
  mv_correctLetter : Choice;
  mv_correctText : option string;
  mv_explanation : string }.

Definition renderMissed (i : nat) (m : Question.t) : MissedView :=
  {| mv_key := Question.id m;
     mv_domain := Question.domain m;
     mv_difficulty := Question.difficulty m;
     mv_number := (Z.of_nat i + 1)%Z;
     mv_question := Question.question m;
     mv_correctLetter := indexToChoice (Question.correctIndex m);
     mv_correctText := at_index (Question.choices m) (Question.correctIndex m);
     mv_explanation := Question.explanation m |}.

Record ReviewView := {
  rv_title : string;
  rv_score : Z * Z;
  rv_mode : Mode;
  rv_domain : string;
  rv_missed : list MissedView;
  rv_retryDisabled : bool }.

Definition renderReview (s : State) : ReviewView :=
  {| rv_title := if decide (mode s = exam) then "Exam Results" else "Review";
     rv_score := (correctCount s, total s);
     rv_mode := mode s;
     rv_domain := domain s;
     rv_missed := imap renderMissed (missed s);
     rv_retryDisabled := bool_decide (length (incorrectIds s) = 0%nat) |}.

Inductive View :=
| VLoading
| VError (message : string)
| VNoQuestions (m : Mode) (d : string)
| VReview (v : ReviewView)
| VQuiz (v : QuizView).

Definition render (s : State) : View :=
  if loading s then VLoading
  else if truthy (error s) then VError (default "" (error s))
  else match current s with
       | None => VNoQuestions (mode s) (domain s)
       | Some q => if showReview s then VReview (renderReview s) else VQuiz (renderQuiz s q)
       end.

Local Close Scope string_scope.

(** ** Reachable sessions *)

(** The remote table has one row per identifier. *)
Definition rows_ok (res : string + list DbRow.t) : Prop :=
  match res with
  | inl _ => True
  | inr rows => NoDup (DbRow.id <$> rows)
  end.

Definition event_ok (ev : Event) : Prop :=
  match ev with
  | Mounted res _ | ClickReload res _ | ClickMode _ res _
  | ClickQuizSize _ res _ | SelectDomain _ res _ => rows_ok res
  | _ => True
  end.

(** The states the page can be in: the first render and whatever events
    lead to from there. *)
Inductive reachable : State -> Prop :=
| reachable_init (sess : string) : reachable (initialState sess)
| reachable_step (s : State) (ev : Event) (g : Rng) :
    reachable s -> event_ok ev -> reachable (dispatch ev s g).1.

(** What every reachable session satisfies: the loaded questions have
    distinct identifiers, no identifier is recorded twice as missed, and
    the missed identifiers are identifiers of loaded questions (unless a
    failed load has emptied the list). *)
Definition session_inv (s : State) : Prop :=
  NoDup (Question.id <$> questions s)
  /\ NoDup (incorrectIds s)
  /\ (questions s <> [] -> forall x, x ∈ incorrectIds s -> x ∈ Question.id <$> questions s).

(** ** Sample data

    A small pool and session on which the definitions are evaluated. *)
Definition sampleQuestion (i : string) (d : Difficulty) (c : Choice) : Question.t :=
  {| Question.id := i;
     Question.domain := "Networking";
     Question.difficulty := d;
     Question.mode := exam;
     Question.question := "Which port does SSH listen on by default?";
     Question.choices := ["22"; "80"; "443"; "8080"]%string;
     Question.correctIndex := correctChoiceToIndex c;
     Question.correctChoice := c;
     Question.explanation := "SSH uses TCP port 22." |}.

Definition samplePool : list Question.t :=
  [sampleQuestion "e1" easy A; sampleQuestion "e2" easy B; sampleQuestion "e3" easy C;
   sampleQuestion "m1" medium A; sampleQuestion "m2" medium B; sampleQuestion "m3" medium C;
   sampleQuestion "h1" hard A; sampleQuestion "h2" hard B; sampleQuestion "h3" hard C].

(** Ten easy, ten medium and a single hard question. *)
Definition shortOfHardPool : list Question.t :=
  replicate 10 (sampleQuestion "e" easy A) ++ replicate 10 (sampleQuestion "m" medium B)
  ++ [sampleQuestion "h" hard C].

Definition sampleRng : Rng := fun k => (7 * k + 3)%nat.

(** A session over [qs] in mode [m], on its first question, with the
    first choice selected and not yet submitted. *)
Definition sampleSession (m : Mode) (qs : list Question.t) : State :=
  {| mode := m; quizSize := size5; domain := "all"; loading := false;
     saving := false; error := None; questions := qs; index := 0;
     selectedIndex := Some 0; submitted := false; correctCount := 0; answeredCount := 0;
     incorrectIds := []; showReview := false; sessionId := "sess_0" |}.

(** ** Well-formed sessions *)

(** What [loadQuestions] builds for every row: four choices, and a
    correct index that is the index of the correct letter. *)
Definition Question_wf (q : Question.t) : Prop :=
  length (Question.choices q) = 4%nat
  /\ Question.correctIndex q = correctChoiceToIndex (Question.correctChoice q).

(** Facts about the progress and scoring variables that every event
    keeps. *)
Definition page_inv (s : State) : Prop :=
  Forall Question_wf (questions s)
  /\ (submitted s = true -> selectedIndex s <> None)
  /\ (forall sel, selectedIndex s = Some sel -> 0 <= sel < 4)
  /\ 0 <= correctCount s
  /\ correctCount s + Z.of_nat (length (incorrectIds s)) <= answeredCount s
  /\ Z.of_nat (length (questions s)) <= QuizSize_value (quizSize s)
  /\ 0 <= index s
  /\ (questions s <> [] -> index s < total s).

(** A sequence of events, one after the other. *)
Fixpoint run (evs : list Event) (s : State) : Rand State :=
  match evs with
  | [] => mret s
  | ev :: evs' => s' ← dispatch ev s; run evs' s'
  end.

(** The clicks of a user who takes choice [c] on the current question,
    submits it and moves on. *)
Definition answerWith (c : nat) : list Event := [ClickChoice c; ClickSubmit; ClickNext].

(** ** Percentages *)

(** [x / y] on numbers. *)
Definition div (x y : spec_float) : spec_float := SFdiv prec emax x y.

(** [Math.round((a / b) * 100)] on integer-valued [a] and [b]. *)
Definition roundedPercent (a b : Z) : Z :=
  Math_round (mul (div (of_int a) (of_int b)) (of_int 100)).

(** [const progressPct = total ? Math.round(((index + 1) / total) * 100) : 0] *)
Definition progressPct (s : State) : Z :=
  if total s =? 0 then 0 else roundedPercent (index s + 1) (total s).

(** ** What [submit] sends to the store *)

Module Attempt.
Record t := {
  question_id : string;
  domain : string;
  mode : Mode;
  difficulty : Difficulty;
  selected_choice : option Choice;
  correct_choice : Choice;
  is_correct : option bool;
  session_id : string }.
End Attempt.

Module StatsUpdate.
Record t := {
  domain : string;
  attempts_inc : Z;
  correct_inc : Z;
  mode : Mode }.
End StatsUpdate.

(** The argument of [persistAttempt] in [submit]. *)
Definition attemptOf (q : Question.t) (sel : Z) (s : State) : Attempt.t :=
  let chosen := indexToChoice sel in
  let correct := Question.correctChoice q in
  let correctBool := bool_decide (chosen = correct) in
  {| Attempt.question_id := Question.id q;
     Attempt.domain := Question.domain q;
     Attempt.mode := mode s;
     Attempt.difficulty := Question.difficulty q;
     Attempt.selected_choice := Some chosen;
     Attempt.correct_choice := correct;
     Attempt.is_correct := Some correctBool;
     Attempt.session_id := sessionId s |}.

(** The argument of [upsertDomainStats] in [submit]. *)
Definition statsUpdateOf (q : Question.t) (sel : Z) (s : State) : StatsUpdate.t :=
  let chosen := indexToChoice sel in
  let correct := Question.correctChoice q in
  let correctBool := bool_decide (chosen = correct) in
  {| StatsUpdate.domain := Question.domain q;
     StatsUpdate.attempts_inc := 1;
     StatsUpdate.correct_inc := if correctBool then 1 else 0;
     StatsUpdate.mode := mode s |}.

(** What one call of [submit] sends: nothing when its guard returns. *)
Definition submit_sends (s : State) : option (Attempt.t * StatsUpdate.t) :=
  match current s, selectedIndex s with
  | Some q, Some sel =>
      if submitted s then None else Some (attemptOf q sel s, statsUpdateOf q sel s)
  | _, _ => None
  end.

(** ** The [domain_stats] table

    One row per domain ([onConflict: "domain"]): a finite map from the
    domain to its row.  [select ... eq("domain", d).maybeSingle()] reads
    the row of [d] if there is one, [upsert] writes the row of its
    domain. *)
Module DomainStat.
Record t := {
  domain : string;
  total_attempts : Z;
  total_correct : Z;
  last_mode : option Mode;
  updated_at : string }.
End DomainStat.

(** The row [upsertDomainStats] writes after reading [data]; [now] is
    [new Date().toISOString()]. *)
Definition nextDomainStat (data : option DomainStat.t) (payload : StatsUpdate.t)
    (now : string) : DomainStat.t :=
  let prevAttempts := default 0 (DomainStat.total_attempts <$> data) in
  let prevCorrect := default 0 (DomainStat.total_correct <$> data) in
  let nextAttempts := prevAttempts + StatsUpdate.attempts_inc payload in
  let nextCorrect := prevCorrect + StatsUpdate.correct_inc payload in
  {| DomainStat.domain := StatsUpdate.domain payload;
     DomainStat.total_attempts := nextAttempts;
     DomainStat.total_correct := nextCorrect;
     DomainStat.last_mode := Some (StatsUpdate.mode payload);
     DomainStat.updated_at := now |}.

(** [upsertDomainStats(payload)] on the table; [selectOk] and [upsertOk]
    tell whether the two requests succeed (a failure is logged and
    nothing is written). *)
Definition upsertDomainStats (payload : StatsUpdate.t) (now : string)
    (selectOk upsertOk : bool) (table : gmap string DomainStat.t)
  : gmap string DomainStat.t :=
  if negb selectOk then table
  else
    let data := table !! StatsUpdate.domain payload in
    let row := nextDomainStat data payload now in
    if upsertOk then <[DomainStat.domain row := row]> table else table.

(** ** The stats page *)

(** [pct(correct, attempts)] *)
Definition pct (correct attempts : Z) : Z :=
  if attempts =? 0 then 0 else roundedPercent correct attempts.

(** [overall]: the totals over all rows and their percentage. *)
Definition overall (stats : list DomainStat.t) : Z * Z * Z :=
  let attempts := foldl (fun sum r => sum + DomainStat.total_attempts r) 0 stats in
  let correct := foldl (fun sum r => sum + DomainStat.total_correct r) 0 stats in
  (attempts, correct, pct correct attempts).

(** ** More sample data *)

Definition sampleRow (i : string) (d : Difficulty) (c : Choice) : DbRow.t :=
  {| DbRow.id := i;
     DbRow.domain := "Networking";
     DbRow.difficulty := d;
     DbRow.mode := balanced;
     DbRow.question := "Which port does SSH listen on by default?";
     DbRow.choice_a := "22";
     DbRow.choice_b := "80";
     DbRow.choice_c := "443";
     DbRow.choice_d := "8080";
     DbRow.correct_choice := c;
     DbRow.explanation := None |}.

(** The page after its first load returned a single row. *)
Definition sampleLoaded : State :=
  (dispatch (Mounted (inr [sampleRow "r1" easy A]) "sess_1") (initialState "sess_0")
     sampleRng).1.

(** That page after the wrong choice B was selected and submitted. *)
Definition sampleMissed : State :=
  (run [ClickChoice 1; ClickSubmit] sampleLoaded sampleRng).1.

(** ** Events inside a session

    The events that answer questions and move between them, as opposed to
    those that start a new session. *)
Definition keepsSession (ev : Event) : bool :=
  match ev with
  | ClickChoice _ | ClickSubmit | ClickNext | ClickBackToQuiz | ClickMissed _ => true
  | _ => false
  end.

(** The number of questions of [qs] that the choices [cs], taken in order,
    answer correctly by the comparison [submit] makes. *)
Fixpoint scoreOf (qs : list Question.t) (cs : list nat) : Z :=
  match qs, cs with
  | q :: qs', c :: cs' =>
      (if bool_decide (indexToChoice (Z.of_nat c) = Question.correctChoice q) then 1 else 0)
      + scoreOf qs' cs'
  | _, _ => 0
  end.

(** A quiz screen with its score badge blanked. *)
Definition withoutScore (v : QuizView) : QuizView :=
  {| qv_mode := qv_mode v; qv_quizSize := qv_quizSize v; qv_domain := qv_domain v;
     qv_saving := qv_saving v; qv_loaded := qv_loaded v; qv_score := (0, 0);
     qv_number := qv_number v; qv_total := qv_total v;
     qv_questionDomain := qv_questionDomain v; qv_question := qv_question v;
     qv_difficulty := qv_difficulty v; qv_choices := qv_choices v;
     qv_submitDisabled := qv_submitDisabled v; qv_nextDisabled := qv_nextDisabled v;
     qv_nextIsFinish := qv_nextIsFinish v; qv_feedback := qv_feedback v |}.

(** ** Answering in sequence *)

(** The state after the three clicks of [answerWith c] on an unanswered
    question [q] of the quiz screen. *)
Definition answered (q : Question.t) (c : nat) (s : State) : State :=
  let s2 := submit_end (index s) (total s)
              (submit_body q (Z.of_nat c) (setSelectedIndex (Some (Z.of_nat c)) s)) in
  if decide (index s = total s - 1) then s2
  else setSubmitted false (setSelectedIndex None (setIndex (index s + 1) s2)).

(** Whether choice [c] is the correct one of [q], by the comparison
    [submit] makes. *)
Definition answersCorrectly (q : Question.t) (c : nat) : bool :=
  bool_decide (indexToChoice (Z.of_nat c) = Question.correctChoice q).

(** The questions of [qs] that the choices [cs], taken in order, answer
    wrongly. *)
Fixpoint missedOf (qs : list Question.t) (cs : list nat) : list Question.t :=
  match qs, cs with
  | q :: qs', c :: cs' =>
      if answersCorrectly q c then missedOf qs' cs' else q :: missedOf qs' cs'
  | _, _ => []
  end.

(** The recorded misses after [qs] were answered with [cs], from [prev]. *)
Fixpoint recordMisses (prev : list string) (qs : list Question.t) (cs : list nat)
  : list string :=
  match qs, cs with
  | q :: qs', c :: cs' =>
      recordMisses
        (if answersCorrectly q c then prev
         else if includes prev (Question.id q) then prev else prev ++ [Question.id q])
        qs' cs'
  | _, _ => prev
  end.

(** The clicks that answer each of [qs] with its correct choice. *)
Definition correctClicks (qs : list Question.t) : list nat :=
  (fun q => Z.to_nat (Question.correctIndex q)) <$> qs.

(** ** Rows of the stats table *)

(** Every row is stored under its own domain, with counts that make
    sense. *)
Definition table_ok (table : gmap string DomainStat.t) : Prop :=
  forall d r, table !! d = Some r ->
              DomainStat.domain r = d
              /\ 0 <= DomainStat.total_correct r <= DomainStat.total_attempts r.

(** * Properties *)

(** ** Binary64 rounding of a product

    The facts about [binary_round_aux] that bound [Math.round(size * w)]
    from above, proved on the standard library's definitions. *)

Lemma digits2_pos_bounds (p : positive) :
  2 ^ (Z.pos (digits2_pos p) - 1) <= Z.pos p < 2 ^ Z.pos (digits2_pos p).
Proof.
  induction p as [p IH | p IH |]; simpl digits2_pos.
  - rewrite Pos2Z.inj_succ, Z.pow_succ_r by lia.
    replace (Z.succ (Z.pos (digits2_pos p)) - 1) with (Z.succ (Z.pos (digits2_pos p) - 1)) by lia.
    rewrite Z.pow_succ_r by lia. lia.
  - rewrite Pos2Z.inj_succ, Z.pow_succ_r by lia.
    replace (Z.succ (Z.pos (digits2_pos p)) - 1) with (Z.succ (Z.pos (digits2_pos p) - 1)) by lia.
    rewrite Z.pow_succ_r by lia. lia.
  - simpl. lia.
Qed.

Lemma digits2_pos_unique (p : positive) (k : Z) :
  2 ^ (k - 1) <= Z.pos p < 2 ^ k -> Z.pos (digits2_pos p) = k.
Proof.
  intros [Hlo Hhi]. pose proof (digits2_pos_bounds p) as [Blo Bhi].
  set (d := Z.pos (digits2_pos p)) in *.
  assert (Hk : 0 < k).
  { destruct (Z_lt_le_dec 0 k) as [|Hle]; [assumption|].
    destruct (Z.eq_dec k 0) as [->|]; [simpl in Hhi; lia|].
    rewrite Z.pow_neg_r in Hhi by lia. lia. }
  destruct (Z_lt_le_dec d k) as [Hlt|Hge].
  - assert (2 ^ d <= 2 ^ (k - 1)) by (apply Z.pow_le_mono_r; lia). lia.
  - destruct (Z.eq_dec d k) as [|Hne]; [assumption|].
    assert (2 ^ k <= 2 ^ (d - 1)) by (apply Z.pow_le_mono_r; lia). lia.
Qed.

Lemma shr_1_m (mrs : shr_record) :
  0 <= shr_m mrs -> shr_m (shr_1 mrs) = shr_m mrs / 2.
Proof.
  destruct mrs as [m r s]; simpl. intros Hm.
  destruct m as [|p|p]; [reflexivity| |lia].
  destruct p as [p|p|]; simpl shr_m.
  - rewrite Pos2Z.inj_xI. apply Z.div_unique with (r := 1); lia.
  - rewrite Pos2Z.inj_xO. apply Z.div_unique with (r := 0); lia.
  - reflexivity.
Qed.

Lemma pow2_double (n : positive) : 2 ^ Z.pos n~0 = 2 ^ Z.pos n * 2 ^ Z.pos n.
Proof. rewrite Pos2Z.inj_xO, <- Z.pow_add_r by lia. f_equal. lia. Qed.

Lemma pow2_double_succ (n : positive) : 2 ^ Z.pos n~1 = 2 * (2 ^ Z.pos n * 2 ^ Z.pos n).
Proof.
  rewrite Pos2Z.inj_xI, <- Z.pow_add_r by lia.
  replace (2 * Z.pos n + 1) with (Z.succ (Z.pos n + Z.pos n)) by lia.
  rewrite Z.pow_succ_r by lia. reflexivity.
Qed.

Lemma iter_pos_shr_1_m (n : positive) (mrs : shr_record) :
  0 <= shr_m mrs -> shr_m (SpecFloat.iter_pos shr_1 n mrs) = shr_m mrs / 2 ^ Z.pos n.
Proof.
  revert mrs. induction n as [n IH | n IH |]; intros mrs Hm; simpl SpecFloat.iter_pos.
  - assert (H1 : 0 <= shr_m (shr_1 mrs)) by (rewrite shr_1_m by assumption; apply Z.div_pos; lia).
    assert (H2 : 0 <= shr_m (SpecFloat.iter_pos shr_1 n (shr_1 mrs))) by (rewrite IH by assumption; apply Z.div_pos; lia).
    rewrite IH, IH, shr_1_m by assumption.
    rewrite !Z.div_div by lia. f_equal. rewrite pow2_double_succ. ring.
  - assert (H2 : 0 <= shr_m (SpecFloat.iter_pos shr_1 n mrs)) by (rewrite IH by assumption; apply Z.div_pos; lia).
    rewrite IH, IH by assumption.
    rewrite !Z.div_div by lia. f_equal. rewrite pow2_double. ring.
  - rewrite shr_1_m by assumption. reflexivity.
Qed.

Lemma pos_iter_xO (p d : positive) :
  Z.pos (Pos.iter xO p d) = Z.pos p * 2 ^ Z.pos d.
Proof.
  induction d as [|d IH] using Pos.peano_ind.
  - simpl. lia.
  - rewrite Pos.iter_succ, Pos2Z.inj_xO, IH, Pos2Z.inj_succ, Z.pow_succ_r by lia. ring.
Qed.

Lemma shr_m_shr (mrs : shr_record) (e n : Z) :
  0 <= shr_m mrs -> 0 <= n ->
  shr_m (fst (shr mrs e n)) = shr_m mrs / 2 ^ n /\ snd (shr mrs e n) = e + n.
Proof.
  intros Hm Hn. destruct n as [|p|p]; simpl; [|split; [apply iter_pos_shr_1_m; assumption | reflexivity] | lia].
  rewrite Z.div_1_r. split; [reflexivity | lia].
Qed.

Lemma shr_m_of_loc (m : Z) (l : location) : shr_m (shr_record_of_loc m l) = m.
Proof. destruct l as [|[]]; reflexivity. Qed.

Lemma shr_fexp_binary64 (m : positive) (e : Z) (l : location) :
  - 1074 <= Z.pos (digits2_pos m) + e - 53 ->
  shr_fexp 53 1024 (Z.pos m) e l =
  shr (shr_record_of_loc (Z.pos m) l) e (Z.pos (digits2_pos m) - 53).
Proof.
  intros H. unfold shr_fexp, fexp, emin. simpl Zdigits2.
  rewrite Z.max_l by lia. f_equal. lia.
Qed.

Lemma round_nearest_even_range (m : Z) (l : location) :
  m <= round_nearest_even m l <= m + 1.
Proof. destruct l as [|[]]; simpl; try lia. destruct (Z.even m); lia. Qed.

Lemma pow2_split (a b : Z) : 0 <= a -> 0 <= b -> 2 ^ (a + b) = 2 ^ a * 2 ^ b.
Proof. intros. apply Z.pow_add_r; assumption. Qed.

(** Rounding a positive 106-bit-or-less product [M * 2^E] to binary64:
    the result is a normal number [m3 * 2^e3] with
    [m3 * 2^e3 <= M * 2^E + 2^(E + d - 53)], [d] the bit length of [M]. *)
Lemma binary_round_aux_upper (pm : positive) (E : Z) :
  let d := Z.pos (digits2_pos pm) in
  53 <= d -> - 1074 <= d + E - 53 -> d + E - 52 <= 971 ->
  exists m3 e3,
    binary_round_aux 53 1024 false (Z.pos pm) E loc_Exact = S754_finite false m3 e3
    /\ E <= e3 <= d + E - 52
    /\ 2 ^ 52 <= Z.pos m3 < 2 ^ 53
    /\ Z.pos m3 * 2 ^ (e3 - E) <= Z.pos pm + 2 ^ (d - 53).
Proof.
  intros d Hd Hlo Hhi.
  pose proof (digits2_pos_bounds pm) as [Blo Bhi].
  assert (Ed : Z.pos (digits2_pos pm) = d) by reflexivity.
  clearbody d. rewrite Ed in Blo, Bhi.
  remember (d - 53) as n eqn:En.
  assert (Hpow : 2 ^ (d - 1) = 2 ^ 52 * 2 ^ n).
  { rewrite <- pow2_split by lia. f_equal. lia. }
  assert (Hpow' : 2 ^ d = 2 ^ 53 * 2 ^ n).
  { rewrite <- pow2_split by lia. f_equal. lia. }
  assert (Hn : 0 < 2 ^ n) by (apply Z.pow_pos_nonneg; lia).
  unfold binary_round_aux.
  rewrite shr_fexp_binary64 by lia. rewrite Ed, <- En.
  destruct (shr_m_shr (shr_record_of_loc (Z.pos pm) loc_Exact) E n) as [Hm1 He1];
    [simpl; lia | lia |].
  destruct (shr (shr_record_of_loc (Z.pos pm) loc_Exact) E n) as [mrs1 e1].
  simpl in Hm1, He1.
  remember (shr_m mrs1) as m1 eqn:Em1.
  assert (Hm1lo : 2 ^ 52 <= m1).
  { rewrite Hm1. apply Z.div_le_lower_bound; lia. }
  assert (Hm1hi : m1 < 2 ^ 53).
  { rewrite Hm1. apply Z.div_lt_upper_bound; lia. }
  assert (Hm1M : m1 * 2 ^ n <= Z.pos pm).
  { rewrite Hm1. rewrite Z.mul_comm. apply Z.mul_div_le. lia. }
  pose proof (round_nearest_even_range m1 (loc_of_shr_record mrs1)) as Hr.
  destruct (round_nearest_even m1 (loc_of_shr_record mrs1)) as [|p2|p2]; [lia| |lia].
  destruct (Z_lt_le_dec (Z.pos p2) (2 ^ 53)) as [Hlt|Hge].
  - assert (Hd2 : Z.pos (digits2_pos p2) = 53) by (apply digits2_pos_unique; lia).
    rewrite shr_fexp_binary64 by lia. rewrite Hd2. simpl shr.
    cbv beta iota delta [shr_m].
    assert (Hle : (e1 <=? 1024 - 53) = true) by (apply Z.leb_le; lia).
    rewrite Hle. exists p2, e1. repeat split; try lia.
    replace (e1 - E) with n by lia. nia.
  - assert (Hp2 : Z.pos p2 = 2 ^ 53) by lia.
    assert (Hd2 : Z.pos (digits2_pos p2) = 54) by (apply digits2_pos_unique; lia).
    rewrite shr_fexp_binary64 by lia. rewrite Hd2.
    change (54 - 53) with 1. simpl shr. 
    assert (Hp2' : p2 = 9007199254740992%positive) by lia.
    subst p2. cbv beta iota delta [shr_m shr_1 SpecFloat.iter_pos].
    assert (Hle : (e1 + 1 <=? 1024 - 53) = true) by (apply Z.leb_le; lia).
    rewrite Hle. eexists _, (e1 + 1). split; [reflexivity|]. repeat split; try lia.
    replace (e1 + 1 - E) with (1 + n) by lia.
    rewrite pow2_split by lia. change (2 ^ 1) with 2.
    change (2 ^ 53) with 9007199254740992 in *. nia.
Qed.

Lemma binary_round_aux_exact (pm : positive) (E : Z) :
  Z.pos (digits2_pos pm) = 53 -> - 1074 <= E <= 971 ->
  binary_round_aux 53 1024 false (Z.pos pm) E loc_Exact = S754_finite false pm E.
Proof.
  intros Hd HE. unfold binary_round_aux.
  rewrite shr_fexp_binary64 by lia. rewrite Hd. simpl shr.
  cbv beta iota delta [shr_m loc_of_shr_record round_nearest_even].
  rewrite shr_fexp_binary64 by lia. rewrite Hd. simpl shr.
  cbv beta iota delta [shr_m].
  assert (Hle : (E <=? 1024 - 53) = true) by (apply Z.leb_le; lia).
  rewrite Hle. reflexivity.
Qed.

(** A safe positive integer is represented exactly, with a 53-bit mantissa. *)
Lemma of_int_safe (z : Z) :
  1 <= z <= MAX_SAFE_INTEGER ->
  exists mz k, of_int z = S754_finite false mz (- k)
               /\ 0 <= k <= 52 /\ Z.pos mz = z * 2 ^ k /\ 2 ^ 52 <= Z.pos mz < 2 ^ 53.
Proof.
  unfold MAX_SAFE_INTEGER. intros Hz. destruct z as [|p|p]; try lia.
  pose proof (digits2_pos_bounds p) as [Blo Bhi].
  remember (Z.pos (digits2_pos p)) as d eqn:Ed.
  assert (Hd1 : 1 <= d) by lia.
  assert (Hd53 : d <= 53).
  { destruct (Z_le_gt_dec d 53) as [|Hgt]; [assumption|].
    assert (2 ^ 53 <= 2 ^ (d - 1)) by (apply Z.pow_le_mono_r; lia). lia. }
  unfold of_int, binary_normalize, binary_round, prec, emax.
  unfold fexp at 1, emin. rewrite <- Ed, Z.max_l by lia.
  unfold shl_align.
  destruct (Z.eq_dec d 53) as [E53|Hne].
  - rewrite E53 in *. change (53 + 0 - 53 - 0) with 0. change (53 - 1) with 52 in Blo.
    cbv beta iota.
    rewrite binary_round_aux_exact; [| congruence | lia].
    exists p, 0. change (2 ^ 0) with 1. repeat split; lia.
  - replace (d + 0 - 53 - 0) with (Z.neg (Z.to_pos (53 - d))) by lia.
    cbv beta iota.
    set (dd := Z.to_pos (53 - d)).
    assert (Hdd : Z.pos dd = 53 - d) by (unfold dd; lia).
    assert (Hmz : Z.pos (Pos.iter xO p dd) = Z.pos p * 2 ^ (53 - d))
      by (rewrite pos_iter_xO, Hdd; reflexivity).
    assert (Hp1 : 2 ^ (d - 1) * 2 ^ (53 - d) = 2 ^ 52)
      by (rewrite <- pow2_split by lia; f_equal; lia).
    assert (Hp2 : 2 ^ d * 2 ^ (53 - d) = 2 ^ 53)
      by (rewrite <- pow2_split by lia; f_equal; lia).
    assert (Hpos : 0 < 2 ^ (53 - d)) by (apply Z.pow_pos_nonneg; lia).
    assert (Hrange : 2 ^ 52 <= Z.pos (Pos.iter xO p dd) < 2 ^ 53) by (rewrite Hmz; nia).
    rewrite binary_round_aux_exact; [| apply digits2_pos_unique; exact Hrange | lia].
    exists (Pos.iter xO p dd), (53 - d). repeat split; try lia.
    f_equal. lia.
Qed.

(** [Math.round] of a non-negative number, against that number. *)
Lemma Math_round_upper (m : positive) (e a : Z) :
  0 <= a -> - a <= e ->
  0 <= Math_round (S754_finite false m e)
  /\ 2 * 2 ^ a * Math_round (S754_finite false m e) <= 2 * (Z.pos m * 2 ^ (e + a)) + 2 ^ a.
Proof.
  intros Ha Hae. unfold Math_round.
  assert (Hpa : 0 < 2 ^ a) by (apply Z.pow_pos_nonneg; lia).
  destruct (Z.leb_spec 0 e) as [He|He].
  - assert (Hpe : 0 < 2 ^ e) by (apply Z.pow_pos_nonneg; lia).
    rewrite pow2_split by lia. split; nia.
  - assert (Hpe : 0 < 2 ^ (- e)) by (apply Z.pow_pos_nonneg; lia).
    assert (Hpea : 0 < 2 ^ (e + a)) by (apply Z.pow_pos_nonneg; lia).
    assert (H1 : 2 ^ (1 - e) = 2 * 2 ^ (- e)).
    { replace (1 - e) with (1 + - e) by lia. rewrite pow2_split by lia. reflexivity. }
    assert (H2 : 2 ^ a = 2 ^ (- e) * 2 ^ (e + a)).
    { rewrite <- pow2_split by lia. f_equal. lia. }
    rewrite H1.
    set (t := (2 * Z.pos m + 2 ^ (- e)) / (2 * 2 ^ (- e))).
    assert (Ht : 2 * 2 ^ (- e) * t <= 2 * Z.pos m + 2 ^ (- e)) by (apply Z.mul_div_le; lia).
    assert (Ht0 : 0 <= t) by (apply Z.div_pos; lia).
    split; [assumption|]. rewrite H2. nia.
Qed.

(** The product of a safe positive integer [z = mz * 2^-k] and a positive
    weight [mw * 2^-kw] is a finite positive number [m3 * 2^e3], at most
    one unit of its last place above the exact product. *)
Lemma mul_of_int_rounded (z : Z) (mw : positive) (kw : Z) :
  1 <= z <= MAX_SAFE_INTEGER -> 2 ^ 52 <= Z.pos mw < 2 ^ 53 -> 0 <= kw <= 1000 ->
  exists (k u : Z) (m3 : positive) (e3 : Z),
    mul (of_int z) (S754_finite false mw (- kw)) = S754_finite false m3 e3
    /\ 0 <= k <= 52 /\ - (k + kw) <= e3
    /\ Z.pos m3 * 2 ^ (e3 + (k + kw)) <= z * 2 ^ k * Z.pos mw + u
    /\ 2 ^ 52 * u <= z * 2 ^ k * Z.pos mw.
Proof.
  intros Hz Hmw Hkw.
  destruct (of_int_safe z Hz) as (mz & k & -> & Hk & Hmz & Hmzr).
  unfold mul, SFmul, prec, emax. simpl xorb.
  pose proof (digits2_pos_bounds (mz * mw)) as [Blo Bhi].
  remember (Z.pos (digits2_pos (mz * mw))) as d eqn:Ed.
  assert (HM : 2 ^ 104 <= Z.pos (mz * mw) < 2 ^ 106).
  { rewrite Pos2Z.inj_mul. change (2 ^ 104) with (2 ^ 52 * 2 ^ 52).
    change (2 ^ 106) with (2 ^ 53 * 2 ^ 53). nia. }
  assert (Hd : 105 <= d <= 106).
  { split.
    - destruct (Z_le_gt_dec 105 d) as [|Hgt]; [assumption|].
      assert (2 ^ d <= 2 ^ 104) by (apply Z.pow_le_mono_r; lia). lia.
    - destruct (Z_le_gt_dec d 106) as [|Hgt]; [assumption|].
      assert (2 ^ 106 <= 2 ^ (d - 1)) by (apply Z.pow_le_mono_r; lia). lia. }
  destruct (binary_round_aux_upper (mz * mw) (- k + - kw)) as (m3 & e3 & -> & He3 & Hm3 & Hub);
    rewrite <- ?Ed; try lia.
  rewrite <- Ed in He3, Hub.
  exists k, (2 ^ (d - 53)), m3, e3.
  replace (e3 - (- k + - kw)) with (e3 + (k + kw)) in Hub by lia.
  rewrite Pos2Z.inj_mul, Hmz in *.
  repeat split; try lia.
  rewrite <- pow2_split by lia. replace (52 + (d - 53)) with (d - 1) by lia. assumption.
Qed.

(** The rounded product of a safe integer and a weight [mw * 2^-kw]:
    [Math.round(z * w) <= z * w * (1 + 2^-52) + 1/2], scaled to integers. *)
Lemma Math_round_mul_upper (z : Z) (mw : positive) (kw : Z) :
  1 <= z <= MAX_SAFE_INTEGER -> 2 ^ 52 <= Z.pos mw < 2 ^ 53 -> 0 <= kw <= 1000 ->
  let t := Math_round (mul (of_int z) (S754_finite false mw (- kw))) in
  0 <= t /\ 2 ^ 53 * 2 ^ kw * t <= (2 ^ 53 + 2) * z * Z.pos mw + 2 ^ 52 * 2 ^ kw.
Proof.
  intros Hz Hmw Hkw.
  destruct (mul_of_int_rounded z mw kw Hz Hmw Hkw)
    as (k & u & m3 & e3 & -> & Hk & He3 & Hub & Hu).
  destruct (Math_round_upper m3 e3 (k + kw)) as [Ht0 Ht]; [lia | lia |].
  cbv zeta. split; [assumption|].
  remember (Math_round (S754_finite false m3 e3)) as t eqn:Et. clear Et.
  rewrite pow2_split in Ht by lia.
  assert (Hpk : 0 < 2 ^ k) by (apply Z.pow_pos_nonneg; lia).
  assert (Hpkw : 0 < 2 ^ kw) by (apply Z.pow_pos_nonneg; lia).
  remember (Z.pos m3 * 2 ^ (e3 + (k + kw))) as v.
  remember (2 ^ k) as pk. remember (2 ^ kw) as pkw. remember (Z.pos mw) as W.
  change (2 ^ 52) with 4503599627370496 in *. change (2 ^ 53) with 9007199254740992 in *.
  apply Z.mul_le_mono_pos_l with (p := pk); [assumption|].
  nia.
Qed.

(** In particular [Math.round] never sees NaN or an infinity there. *)
Lemma mul_of_int_finite (z : Z) (mw : positive) (kw : Z) :
  1 <= z <= MAX_SAFE_INTEGER -> 2 ^ 52 <= Z.pos mw < 2 ^ 53 -> 0 <= kw <= 1000 ->
  exists m e, mul (of_int z) (S754_finite false mw (- kw)) = S754_finite false m e.
Proof.
  intros Hz Hmw Hkw.
  destruct (mul_of_int_rounded z mw kw Hz Hmw Hkw) as (_ & _ & m3 & e3 & -> & _).
  by exists m3, e3.
Qed.

(** ** The targets of [pickWeighted] *)

Lemma weights_values (m : Mode) :
  weights m =
  match m with
  | exam => {| w_easy := S754_finite false 7205759403792794 (-56);
               w_medium := S754_finite false 8106479329266893 (-54);
               w_hard := S754_finite false 8106479329266893 (-54) |}
  | balanced => {| w_easy := S754_finite false 5404319552844595 (-54);
                   w_medium := S754_finite false 4503599627370496 (-53);
                   w_hard := S754_finite false 7205759403792794 (-55) |}
  end.
Proof. destruct m; reflexivity. Qed.

(** The same numbers as the floating-point literals of the prover, which
    are read as binary64 too. *)
Remark weights_match_literals :
  decimal 1 10 = Prim2SF 0.1 /\ decimal 45 100 = Prim2SF 0.45
  /\ decimal 3 10 = Prim2SF 0.3 /\ decimal 5 10 = Prim2SF 0.5
  /\ decimal 2 10 = Prim2SF 0.2.
Proof. repeat split; reflexivity. Qed.

Lemma targets_nonneg (size : Z) (m : Mode) :
  1 <= size <= MAX_SAFE_INTEGER -> 0 <= targetEasy size m /\ 0 <= targetMed size m.
Proof.
  intros Hs. unfold targetEasy, targetMed. rewrite weights_values.
  destruct m; simpl w_easy; simpl w_medium; split;
    match goal with
    | |- 0 <= Math_round (mul _ (S754_finite false ?mw (Z.neg ?k))) =>
        apply (Math_round_mul_upper size mw (Z.pos k) Hs); vm_compute; intuition congruence
    end.
Qed.

Lemma targets_sum_le (size : Z) (m : Mode) :
  1 <= size <= MAX_SAFE_INTEGER -> targetEasy size m + targetMed size m <= size.
Proof.
  intros Hs.
  assert (Hcases : size = 1 \/ size = 2 \/ size = 3 \/ size = 4 \/ size = 5 \/ 6 <= size) by lia.
  destruct Hcases as [-> | [-> | [-> | [-> | [-> | Hbig]]]]];
    [destruct m; vm_compute; congruence .. |].
  unfold targetEasy, targetMed. rewrite weights_values.
  destruct m; simpl w_easy; simpl w_medium.
  - pose proof (Math_round_mul_upper size 5404319552844595 54 Hs) as [_ He];
      [vm_compute; intuition congruence | lia |].
    pose proof (Math_round_mul_upper size 4503599627370496 53 Hs) as [_ Hm];
      [vm_compute; intuition congruence | lia |].
    cbv zeta in He, Hm. change (- (54)) with (-54) in He. change (- (53)) with (-53) in Hm.
    change (2 ^ 54) with 18014398509481984 in He.
    change (2 ^ 53) with 9007199254740992 in He, Hm.
    change (2 ^ 52) with 4503599627370496 in He, Hm. lia.
  - pose proof (Math_round_mul_upper size 7205759403792794 56 Hs) as [_ He];
      [vm_compute; intuition congruence | lia |].
    pose proof (Math_round_mul_upper size 8106479329266893 54 Hs) as [_ Hm];
      [vm_compute; intuition congruence | lia |].
    cbv zeta in He, Hm. change (- (56)) with (-56) in He. change (- (54)) with (-54) in Hm.
    change (2 ^ 56) with 72057594037927936 in He.
    change (2 ^ 54) with 18014398509481984 in Hm.
    change (2 ^ 53) with 9007199254740992 in He, Hm.
    change (2 ^ 52) with 4503599627370496 in He, Hm. lia.
Qed.

Lemma targets_bounds (size : Z) (m : Mode) :
  1 <= size <= MAX_SAFE_INTEGER ->
  0 <= targetEasy size m /\ 0 <= targetMed size m /\ 0 <= targetHard size m
  /\ targetEasy size m + targetMed size m + targetHard size m = size.
Proof.
  intros Hs.
  pose proof (targets_sum_le size m Hs). pose proof (targets_nonneg size m Hs) as [? ?].
  unfold targetHard. lia.
Qed.

(** A take count between 0 and the bucket length makes [slice(0, take)]
    the first [take] items and [slice(take)] the rest. *)
Lemma slice_0_take {T} (a : list T) (k : Z) :
  0 <= k -> slice a 0 k = take (Z.to_nat k) a.
Proof.
  intros Hk. unfold slice, slice_index.
  destruct (Z.ltb_spec 0 0) as [|_]; [lia|].
  destruct (Z.ltb_spec k 0) as [|_]; [lia|].
  rewrite (Z.min_l 0) by lia. change (Z.to_nat 0) with 0%nat.
  rewrite drop_0, Nat.sub_0_r.
  destruct (Z.min_spec k (Z.of_nat (length a))) as [[H ->]|[H ->]]; [reflexivity|].
  rewrite Nat2Z.id, !take_ge by lia. reflexivity.
Qed.

Lemma slice_from_drop {T} (a : list T) (k : Z) :
  0 <= k -> slice_from a k = drop (Z.to_nat k) a.
Proof.
  intros Hk. unfold slice_from, slice, slice_index.
  destruct (Z.ltb_spec k 0) as [|_]; [lia|].
  destruct (Z.ltb_spec (Z.of_nat (length a)) 0) as [|_]; [lia|].
  rewrite (Z.min_l (Z.of_nat (length a))) by lia. rewrite Nat2Z.id.
  destruct (Z.min_spec k (Z.of_nat (length a))) as [[H ->]|[H ->]].
  - apply take_ge. rewrite length_drop. lia.
  - rewrite Nat2Z.id, Nat.sub_diag, drop_all, drop_ge by lia. reflexivity.
Qed.

(** C10. For both weight profiles and every safe integer size >= 1 the
    rounded easy and medium targets add up to at most [size]; so the hard
    target, their remainder, is not negative, the three targets are >= 0
    and sum to [size], and each take count [Math.min(target, length)] lies
    between 0 and the bucket length. *)
Theorem targets_split_size (size : Z) (m : Mode) :
  1 <= size <= MAX_SAFE_INTEGER ->
  targetEasy size m + targetMed size m <= size
  /\ 0 <= targetEasy size m /\ 0 <= targetMed size m /\ 0 <= targetHard size m
  /\ targetEasy size m + targetMed size m + targetHard size m = size
  /\ forall len : nat,
      0 <= Math_min (targetEasy size m) (Z.of_nat len) <= Z.of_nat len
      /\ 0 <= Math_min (targetMed size m) (Z.of_nat len) <= Z.of_nat len
      /\ 0 <= Math_min (targetHard size m) (Z.of_nat len) <= Z.of_nat len.
Proof.
  intros Hs.
  pose proof (targets_sum_le size m Hs) as Hsum.
  pose proof (targets_nonneg size m Hs) as [He Hm].
  unfold targetHard, Math_min. repeat split; lia.
Qed.

Lemma targets_split_size_witness :
  1 <= 25 <= MAX_SAFE_INTEGER
  /\ targetEasy 25 balanced + targetMed 25 balanced <= 25
  /\ 0 <= targetHard 25 balanced.
Proof.
  assert (H : 1 <= 25 <= MAX_SAFE_INTEGER) by (unfold MAX_SAFE_INTEGER; lia).
  split; [exact H|].
  pose proof (targets_split_size 25 balanced H) as (H1 & _ & _ & H2 & _).
  split; assumption.
Defined.

(** ** [shuffle] permutes *)

Lemma swap_Permutation {T} (a : list T) (i j : nat) : swap a i j ≡ₚ a.
Proof.
  unfold swap. destruct (a !! i) as [ai|] eqn:Hi; [|reflexivity].
  destruct (a !! j) as [aj|] eqn:Hj; [|reflexivity].
  by apply Permutation_insert_swap.
Qed.

(** With both indices inside the array the swap takes place. *)
Lemma swap_in_range {T} (a : list T) (i j : nat) :
  (i < length a)%nat -> (j < length a)%nat ->
  exists ai aj, a !! i = Some ai /\ a !! j = Some aj
                /\ swap a i j = <[j := ai]> (<[i := aj]> a).
Proof.
  intros [ai Hi]%lookup_lt_is_Some_2 [aj Hj]%lookup_lt_is_Some_2.
  exists ai, aj. unfold swap. by rewrite Hi, Hj.
Qed.

Lemma swap_length {T} (a : list T) (i j : nat) : length (swap a i j) = length a.
Proof. apply Permutation_length, swap_Permutation. Qed.

Lemma shuffle_from_Permutation {T} (i : nat) (a : list T) (g : Rng) :
  (shuffle_from i a g).1 ≡ₚ a.
Proof.
  revert a g. induction i as [|i IH]; intros a g; [reflexivity|].
  cbn [shuffle_from]. unfold mbind, Rand_bind.
  destruct (random_below (S i + 1) g) as [j g'].
  rewrite IH. apply swap_Permutation.
Qed.

Lemma shuffle_Permutation {T} (arr : list T) (g : Rng) : (shuffle arr g).1 ≡ₚ arr.
Proof. apply shuffle_from_Permutation. Qed.

(** Runs the next [shuffle] of the goal: names its result and the rest of
    the random source, and records that the result is a permutation. *)
Tactic Notation "run_shuffle" ident(S) ident(g') ident(PS) :=
  match goal with
  | |- context [shuffle ?l ?g] =>
      pose proof (shuffle_Permutation l g) as PS;
      destruct (shuffle l g) as [S g']; cbn [fst] in PS
  end.

(** Inside [shuffle] every swap is between two positions of the array:
    the draw for index [i] is at most [i]. *)
Lemma random_below_lt (n : nat) (g : Rng) : (0 < n)%nat -> ((random_below n g).1 < n)%nat.
Proof. intros Hn. unfold random_below. cbn [fst]. apply Nat.mod_upper_bound. lia. Qed.

(** ** The three buckets partition the pool *)

Lemma bucket_partition (questions : list Question.t) :
  bucket easy questions ++ bucket medium questions ++ bucket hard questions ≡ₚ questions.
Proof.
  unfold bucket. induction questions as [|q l IH]; [reflexivity|].
  rewrite !filter_cons.
  destruct (Question.difficulty q); repeat case_decide; try congruence.
  - cbn [app]. by rewrite IH.
  - cbn [app]. rewrite <- Permutation_middle. by rewrite IH.
  - rewrite app_assoc, <- Permutation_middle, <- app_assoc. by rewrite IH.
Qed.

Lemma bucket_Forall (d : Difficulty) (questions : list Question.t) :
  Forall (fun q => Question.difficulty q = d) (bucket d questions).
Proof. unfold bucket. apply Forall_forall. intros q Hq. by apply list_elem_of_filter in Hq as [? _]. Qed.

(** ** The shape of a selection

    Whatever the draws, the selection is a permutation of: the first
    [take] items of each shuffled bucket, followed by [fill], the first
    items of the shuffled leftovers, as many as are missing. *)
Lemma pickWeighted_shape (questions : list Question.t) (size : Z) (m : Mode) (g : Rng) :
  1 <= size <= MAX_SAFE_INTEGER ->
  ∃ (E M H fill rest : list Question.t) (tE tM tH : nat),
    E ≡ₚ bucket easy questions ∧ M ≡ₚ bucket medium questions
    ∧ H ≡ₚ bucket hard questions
    ∧ Z.of_nat tE = Math_min (targetEasy size m) (Z.of_nat (length E))
    ∧ Z.of_nat tM = Math_min (targetMed size m) (Z.of_nat (length M))
    ∧ Z.of_nat tH = Math_min (targetHard size m) (Z.of_nat (length H))
    ∧ (pickWeighted questions size m g).1 ≡ₚ (take tE E ++ take tM M ++ take tH H) ++ fill
    ∧ fill ++ rest ≡ₚ drop tE E ++ drop tM M ++ drop tH H
    ∧ length fill = Nat.min (Z.to_nat size - (tE + tM + tH))
                            (length (drop tE E ++ drop tM M ++ drop tH H)).
Proof.
  intros Hs.
  destruct (targets_bounds size m Hs) as (He & Hm & Hh & Htot).
  unfold pickWeighted, mbind, Rand_bind, mret, Rand_ret.
  run_shuffle E g1 PE. run_shuffle M g2 PM. run_shuffle H g3 PH.
  cbv zeta.
  remember (Math_min (targetEasy size m) (Z.of_nat (length E))) as zE eqn:EzE.
  remember (Math_min (targetMed size m) (Z.of_nat (length M))) as zM eqn:EzM.
  remember (Math_min (targetHard size m) (Z.of_nat (length H))) as zH eqn:EzH.
  assert (HtE : 0 <= zE <= Z.of_nat (length E)) by (unfold Math_min in EzE; lia).
  assert (HtM : 0 <= zM <= Z.of_nat (length M)) by (unfold Math_min in EzM; lia).
  assert (HtH : 0 <= zH <= Z.of_nat (length H)) by (unfold Math_min in EzH; lia).
  rewrite !slice_0_take, !slice_from_drop by lia.
  set (tE := Z.to_nat zE). set (tM := Z.to_nat zM). set (tH := Z.to_nat zH).
  assert (Hlen : length (take tE E ++ take tM M ++ take tH H) = (tE + tM + tH)%nat).
  { rewrite !length_app, !length_take. lia. }
  assert (Hle : Z.of_nat (tE + tM + tH) <= size).
  { unfold Math_min in *. unfold targetHard in *. lia. }
  rewrite Hlen.
  exists E, M, H.
  destruct (Z.ltb_spec (Z.of_nat (tE + tM + tH)) size) as [Hlt|Hge].
  - run_shuffle R g4 PR.
    rewrite slice_0_take by lia.
    set (n := Z.to_nat (size - Z.of_nat (tE + tM + tH))).
    run_shuffle S g5 PS. cbn [fst].
    exists (take n R), (drop n R), tE, tM, tH.
    repeat split; try done; try lia.
    + rewrite slice_0_take by lia. rewrite take_ge; [exact PS|].
      rewrite (Permutation_length PS), length_app, Hlen, length_take. lia.
    + by rewrite take_drop.
    + rewrite length_take, <- (Permutation_length PR). unfold n. lia.
  - run_shuffle S g4 PS. cbn [fst].
    exists [], (drop tE E ++ drop tM M ++ drop tH H), tE, tM, tH.
    repeat split; try done; try lia.
    + rewrite slice_0_take by lia. rewrite take_ge; [by rewrite app_nil_r|].
      rewrite (Permutation_length PS), Hlen. lia.
    + cbn [length]. lia.
Qed.

(** ** Sampling without replacement *)

(** For any bound, [slice(0, k)] and [slice(k)] cut the array at the same
    position. *)
Lemma slice_0_index {T} (a : list T) (k : Z) :
  slice a 0 k = take (slice_index (length a) k) a.
Proof.
  unfold slice. replace (slice_index (length a) 0) with 0%nat.
  - by rewrite drop_0, Nat.sub_0_r.
  - unfold slice_index. destruct (Z.ltb_spec 0 0); lia.
Qed.

Lemma slice_from_index {T} (a : list T) (k : Z) :
  slice_from a k = drop (slice_index (length a) k) a.
Proof.
  unfold slice_from, slice.
  replace (slice_index (length a) (Z.of_nat (length a))) with (length a).
  - apply take_ge. rewrite length_drop. lia.
  - unfold slice_index. destruct (Z.ltb_spec (Z.of_nat (length a)) 0); lia.
Qed.

Lemma slice_submseteq {T} (a : list T) (start end_ : Z) : slice a start end_ ⊆+ a.
Proof.
  unfold slice. etransitivity; [apply submseteq_take | apply submseteq_drop].
Qed.

(** Every selection is a sub-multiset of the pool, whatever the size and
    the draws. *)
Lemma pickWeighted_submseteq (questions : list Question.t) (size : Z) (m : Mode) (g : Rng) :
  (pickWeighted questions size m g).1 ⊆+ questions.
Proof.
  unfold pickWeighted, mbind, Rand_bind, mret, Rand_ret.
  run_shuffle E g1 PE. run_shuffle M g2 PM. run_shuffle H g3 PH.
  cbv zeta. rewrite !slice_0_index, !slice_from_index.
  set (tE := slice_index (length E) _). set (tM := slice_index (length M) _).
  set (tH := slice_index (length H) _).
  assert (Hall : (take tE E ++ take tM M ++ take tH H)
                 ++ (drop tE E ++ drop tM M ++ drop tH H) ≡ₚ questions).
  { rewrite <- (bucket_partition questions), <- PE, <- PM, <- PH.
    rewrite <- (take_drop tE E) at 3. rewrite <- (take_drop tM M) at 3.
    rewrite <- (take_drop tH H) at 3. solve_Permutation. }
  destruct (Z.of_nat (length (take tE E ++ take tM M ++ take tH H)) <? size).
  - run_shuffle R g4 PR. run_shuffle S g5 PS. cbn [fst].
    transitivity S; [apply slice_submseteq|]. rewrite PS, <- Hall.
    apply submseteq_app; [done|]. rewrite <- PR. apply slice_submseteq.
  - run_shuffle S g4 PS. cbn [fst].
    transitivity S; [apply slice_submseteq|]. rewrite PS, <- Hall.
    by apply submseteq_inserts_r.
Qed.

(** C6. Over a pool with pairwise distinct identifiers, a selection has
    no identifier twice, and each of its items is an item of the pool;
    for every size, both modes and all draws. *)
Theorem pickWeighted_without_replacement
    (pool : list Question.t) (size : Z) (m : Mode) (g : Rng) :
  NoDup (Question.id <$> pool) ->
  NoDup (Question.id <$> (pickWeighted pool size m g).1)
  /\ forall q, q ∈ (pickWeighted pool size m g).1 -> q ∈ pool.
Proof.
  intros Hnd. pose proof (pickWeighted_submseteq pool size m g) as Hsub.
  split.
  - destruct (submseteq_Permutation _ _ Hsub) as [k Hk].
    rewrite Hk, fmap_app in Hnd. by apply NoDup_app in Hnd as [? _].
  - intros q Hq. by eapply elem_of_submseteq.
Qed.

(** ** Length of a selection *)

Lemma pickWeighted_length_nat (pool : list Question.t) (size : Z) (m : Mode) (g : Rng) :
  1 <= size <= MAX_SAFE_INTEGER ->
  length (pickWeighted pool size m g).1 = Nat.min (Z.to_nat size) (length pool).
Proof.
  intros Hs.
  destruct (targets_bounds size m Hs) as (He & Hm & Hh & Htot).
  destruct (pickWeighted_shape pool size m g Hs)
    as (E & M & H & fill & rest & tE & tM & tH
        & PE & PM & PH & HtE & HtM & HtH & Hres & _ & Hfill).
  pose proof (Permutation_length (bucket_partition pool)) as Hpool.
  rewrite !length_app, <- (Permutation_length PE), <- (Permutation_length PM),
    <- (Permutation_length PH) in Hpool.
  rewrite (Permutation_length Hres), !length_app, !length_take, Hfill.
  rewrite !length_app, !length_drop.
  unfold Math_min, targetHard in *. lia.
Qed.

(** C1. For every pool, every safe integer size >= 1, both modes and all
    draws, the selection has exactly [min(size, |pool|)] items; an empty
    pool gives an empty selection, and a size that is at least the pool's
    gives the whole pool, permuted. *)
Theorem pickWeighted_length (pool : list Question.t) (size : Z) (m : Mode) (g : Rng) :
  1 <= size <= MAX_SAFE_INTEGER ->
  Z.of_nat (length (pickWeighted pool size m g).1) = Z.min size (Z.of_nat (length pool))
  /\ (pool = [] -> (pickWeighted pool size m g).1 = [])
  /\ (Z.of_nat (length pool) <= size -> (pickWeighted pool size m g).1 ≡ₚ pool).
Proof.
  intros Hs. pose proof (pickWeighted_length_nat pool size m g Hs) as Hlen.
  repeat split.
  - lia.
  - intros ->. apply nil_length_inv. rewrite Hlen. cbn [length]. lia.
  - intros Hle. apply submseteq_length_Permutation.
    + apply pickWeighted_submseteq.
    + lia.
Qed.

(** ** Difficulty mix of a selection *)

Lemma bucket_same (d : Difficulty) (l : list Question.t) :
  Forall (fun q => Question.difficulty q = d) l -> bucket d l = l.
Proof.
  unfold bucket. induction 1 as [|q l Hq _ IH]; [done|].
  rewrite filter_cons. case_decide; [by rewrite IH | done].
Qed.

Lemma bucket_other (d d' : Difficulty) (l : list Question.t) :
  d <> d' -> Forall (fun q => Question.difficulty q = d') l -> bucket d l = [].
Proof.
  unfold bucket. intros Hne. induction 1 as [|q l Hq _ IH]; [done|].
  rewrite filter_cons. case_decide; [congruence | exact IH].
Qed.

Lemma bucket_app (d : Difficulty) (l k : list Question.t) :
  bucket d (l ++ k) = bucket d l ++ bucket d k.
Proof. apply filter_app. Qed.

Lemma bucket_Permutation (d : Difficulty) (l k : list Question.t) :
  l ≡ₚ k -> bucket d l ≡ₚ bucket d k.
Proof. unfold bucket. by intros ->. Qed.

Lemma shuffled_bucket_Forall (d : Difficulty) (questions X : list Question.t) :
  X ≡ₚ bucket d questions -> Forall (fun q => Question.difficulty q = d) X.
Proof. intros ->. apply bucket_Forall. Qed.

(** The number of items of difficulty [d] among the first items of the
    three shuffled buckets. *)
Lemma bucket_of_takes (d : Difficulty) (questions E M H : list Question.t) (tE tM tH : nat) :
  E ≡ₚ bucket easy questions -> M ≡ₚ bucket medium questions ->
  H ≡ₚ bucket hard questions ->
  bucket d (take tE E ++ take tM M ++ take tH H) =
  match d with easy => take tE E | medium => take tM M | hard => take tH H end.
Proof.
  intros PE%shuffled_bucket_Forall PM%shuffled_bucket_Forall PH%shuffled_bucket_Forall.
  apply (Forall_take _ tE) in PE. apply (Forall_take _ tM) in PM.
  apply (Forall_take _ tH) in PH.
  rewrite !bucket_app.
  destruct d.
  - rewrite (bucket_same _ _ PE), (bucket_other easy medium), (bucket_other easy hard);
      [by rewrite !app_nil_r | done..].
  - rewrite (bucket_same _ _ PM), (bucket_other medium easy), (bucket_other medium hard);
      [by rewrite !app_nil_r | done..].
  - rewrite (bucket_same _ _ PH), (bucket_other hard easy), (bucket_other hard medium);
      [done | done..].
Qed.

(** When no bucket is short of its target, the selection holds each
    target exactly. *)
Lemma pickWeighted_counts (pool : list Question.t) (size : Z) (m : Mode) (g : Rng) :
  1 <= size <= MAX_SAFE_INTEGER ->
  targetEasy size m <= Z.of_nat (length (bucket easy pool)) ->
  targetMed size m <= Z.of_nat (length (bucket medium pool)) ->
  targetHard size m <= Z.of_nat (length (bucket hard pool)) ->
  let picked := (pickWeighted pool size m g).1 in
  Z.of_nat (length (bucket easy picked)) = targetEasy size m
  /\ Z.of_nat (length (bucket medium picked)) = targetMed size m
  /\ Z.of_nat (length (bucket hard picked)) = targetHard size m.
Proof.
  intros Hs HE HM HH.
  destruct (targets_bounds size m Hs) as (He & Hm & Hh & Htot).
  destruct (pickWeighted_shape pool size m g Hs)
    as (E & M & H & fill & rest & tE & tM & tH
        & PE & PM & PH & HtE & HtM & HtH & Hres & _ & Hfill).
  rewrite <- (Permutation_length PE) in HE. rewrite <- (Permutation_length PM) in HM.
  rewrite <- (Permutation_length PH) in HH.
  unfold Math_min in *.
  assert (fill = []) as -> by (apply nil_length_inv; lia).
  rewrite app_nil_r in Hres. cbv zeta.
  rewrite !(Permutation_length (bucket_Permutation _ _ _ Hres)).
  rewrite !(bucket_of_takes _ pool) by done.
  rewrite !length_take. lia.
Qed.

(** C3. When every bucket holds at least its target, the selection has
    exactly [targetEasy] easy, [targetMed] medium and [targetHard] hard
    questions.  In particular: size 100 in exam mode over buckets of at
    least 100 each gives 10 easy, 45 medium and 45 hard; size 5 in
    balanced mode over 3 easy, 3 medium and 3 hard gives 2 easy, 3 medium
    and no hard. *)
Theorem pickWeighted_difficulty_mix :
  (forall (pool : list Question.t) (size : Z) (m : Mode) (g : Rng),
      1 <= size <= MAX_SAFE_INTEGER ->
      targetEasy size m <= Z.of_nat (length (bucket easy pool)) ->
      targetMed size m <= Z.of_nat (length (bucket medium pool)) ->
      targetHard size m <= Z.of_nat (length (bucket hard pool)) ->
      let picked := (pickWeighted pool size m g).1 in
      Z.of_nat (length (bucket easy picked)) = targetEasy size m
      /\ Z.of_nat (length (bucket medium picked)) = targetMed size m
      /\ Z.of_nat (length (bucket hard picked)) = targetHard size m)
  /\ (forall (pool : list Question.t) (g : Rng),
        (100 <= length (bucket easy pool))%nat ->
        (100 <= length (bucket medium pool))%nat ->
        (100 <= length (bucket hard pool))%nat ->
        let picked := (pickWeighted pool 100 exam g).1 in
        length (bucket easy picked) = 10%nat
        /\ length (bucket medium picked) = 45%nat
        /\ length (bucket hard picked) = 45%nat)
  /\ (forall (pool : list Question.t) (g : Rng),
        length (bucket easy pool) = 3%nat ->
        length (bucket medium pool) = 3%nat ->
        length (bucket hard pool) = 3%nat ->
        let picked := (pickWeighted pool 5 balanced g).1 in
        length (bucket easy picked) = 2%nat
        /\ length (bucket medium picked) = 3%nat
        /\ length (bucket hard picked) = 0%nat
        /\ length picked = 5%nat).
Proof.
  split; [exact pickWeighted_counts|]. split.
  - intros pool g HE HM HH.
    assert (Hs : 1 <= 100 <= MAX_SAFE_INTEGER) by (unfold MAX_SAFE_INTEGER; lia).
    assert (Te : targetEasy 100 exam = 10) by reflexivity.
    assert (Tm : targetMed 100 exam = 45) by reflexivity.
    assert (Th : targetHard 100 exam = 45) by reflexivity.
    destruct (pickWeighted_counts pool 100 exam g Hs) as (H1 & H2 & H3);
      rewrite ?Te, ?Tm, ?Th in *; try lia.
    cbv zeta. lia.
  - intros pool g HE HM HH.
    assert (Hs : 1 <= 5 <= MAX_SAFE_INTEGER) by (unfold MAX_SAFE_INTEGER; lia).
    assert (Te : targetEasy 5 balanced = 2) by reflexivity.
    assert (Tm : targetMed 5 balanced = 3) by reflexivity.
    assert (Th : targetHard 5 balanced = 0) by reflexivity.
    destruct (pickWeighted_counts pool 5 balanced g Hs) as (H1 & H2 & H3);
      rewrite ?Te, ?Tm, ?Th in *; try lia.
    pose proof (pickWeighted_length_nat pool 5 balanced g Hs) as Hlen.
    pose proof (Permutation_length (bucket_partition pool)) as Hpool.
    rewrite !length_app in Hpool.
    cbv zeta. lia.
Qed.

(** ** The remainder fallback *)

(** C7. Size 10 in balanced mode, over a pool with exactly one hard
    question and at least 10 easy and 10 medium ones: the selection has
    10 items (the leftovers fill the hard shortfall), and its hard
    questions are exactly that one. *)
Theorem pickWeighted_hard_shortfall (pool : list Question.t) (g : Rng) :
  length (bucket hard pool) = 1%nat ->
  (10 <= length (bucket easy pool))%nat ->
  (10 <= length (bucket medium pool))%nat ->
  let picked := (pickWeighted pool 10 balanced g).1 in
  length picked = 10%nat
  /\ length (bucket hard picked) = 1%nat
  /\ bucket hard picked = bucket hard pool.
Proof.
  intros HH HE HM.
  assert (Hs : 1 <= 10 <= MAX_SAFE_INTEGER) by (unfold MAX_SAFE_INTEGER; lia).
  assert (Te : targetEasy 10 balanced = 3) by reflexivity.
  assert (Tm : targetMed 10 balanced = 5) by reflexivity.
  assert (Th : targetHard 10 balanced = 2) by reflexivity.
  pose proof (pickWeighted_length_nat pool 10 balanced g Hs) as Hlen.
  pose proof (Permutation_length (bucket_partition pool)) as Hpool.
  rewrite !length_app in Hpool.
  destruct (pickWeighted_shape pool 10 balanced g Hs)
    as (E & M & H & fill & rest & tE & tM & tH
        & PE & PM & PH & HtE & HtM & HtH & Hres & Hrest & _).
  rewrite Te, Tm, Th in *. unfold Math_min in *.
  rewrite (Permutation_length PE) in HtE. rewrite (Permutation_length PM) in HtM.
  rewrite (Permutation_length PH) in HtH.
  assert (tH = 1%nat) as -> by lia.
  assert (Hfill : bucket hard fill = []).
  { apply (bucket_Permutation hard) in Hrest.
    rewrite !bucket_app in Hrest.
    rewrite (drop_ge H) in Hrest by (rewrite (Permutation_length PH); lia).
    rewrite (bucket_other hard easy (drop tE E)) in Hrest;
      [| done | by apply Forall_drop, (shuffled_bucket_Forall easy pool)].
    rewrite (bucket_other hard medium (drop tM M)) in Hrest;
      [| done | by apply Forall_drop, (shuffled_bucket_Forall medium pool)].
    cbn in Hrest. apply Permutation_nil_r in Hrest.
    by apply app_eq_nil in Hrest as [? _]. }
  assert (Hhard : bucket hard (pickWeighted pool 10 balanced g).1 ≡ₚ bucket hard pool).
  { rewrite (bucket_Permutation _ _ _ Hres), bucket_app, Hfill, app_nil_r.
    rewrite (bucket_of_takes hard pool) by done.
    rewrite take_ge by (rewrite (Permutation_length PH); lia). exact PH. }
  cbv zeta. split; [lia|]. split.
  - by rewrite (Permutation_length Hhard).
  - destruct (bucket hard pool) as [|h [|? ?]] eqn:Hb; try discriminate.
    by apply Permutation_singleton_r in Hhard.
Qed.

(** ** Submit *)

Lemma includes_spec (prev : list string) (x : string) :
  includes prev x = true <-> x ∈ prev.
Proof. unfold includes. apply bool_decide_eq_true. Qed.

(** The incorrect ids after a miss: the old ones and the id of the
    question, which is not entered a second time. *)
Lemma record_miss (prev : list string) (x : string) :
  let ids := if includes prev x then prev else prev ++ [x] in
  x ∈ ids
  /\ (forall y, y ∈ ids <-> y ∈ prev \/ y = x)
  /\ (NoDup prev -> NoDup ids)
  /\ (x ∈ prev -> ids = prev)
  /\ (x ∉ prev -> ids = prev ++ [x]).
Proof.
  cbv zeta. destruct (includes prev x) eqn:Hinc.
  - apply includes_spec in Hinc. repeat split; try done.
    + by left.
    + intros [?| ->]; done.
  - assert (Hnot : x ∉ prev) by (intros Hin%includes_spec; congruence).
    repeat split; try done.
    + apply elem_of_app. right. apply list_elem_of_singleton. done.
    + intros [?| ->%list_elem_of_singleton]%elem_of_app; auto.
    + intros [?| ->]; apply elem_of_app; [by left | right; by apply list_elem_of_singleton].
    + intros Hnd. apply NoDup_app. repeat split; [done | | apply NoDup_singleton].
      intros y Hy ->%list_elem_of_singleton. done.
Qed.

Lemma submit_fires (s : State) (q : Question.t) (sel : Z) :
  current s = Some q -> selectedIndex s = Some sel -> submitted s = false ->
  submit s = submit_end (index s) (total s) (submit_body q sel s).
Proof. intros Hq Hsel Hsub. unfold submit. by rewrite Hq, Hsel, Hsub. Qed.

Lemma submit_when_submitted (s : State) : submitted s = true -> submit s = s.
Proof. intros H. unfold submit. rewrite H. by destruct (current s), (selectedIndex s). Qed.

(** C2. [submit] does nothing unless there is a current question, a
    choice is selected and the question is not yet submitted.  When it
    fires it marks the question submitted, adds 1 to the attempted count,
    adds 1 to the correct count exactly when the chosen choice is the
    question's correct choice, and otherwise leaves the correct count and
    puts the question's id in the incorrect ids, where it then occurs
    once (an id already there is not added again); if the question is the
    last one the review is shown; and submitting again does nothing. *)
Theorem submit_effect (s : State) :
  (current s = None \/ selectedIndex s = None \/ submitted s = true -> submit s = s)
  /\ (forall (q : Question.t) (sel : Z),
        current s = Some q -> selectedIndex s = Some sel -> submitted s = false ->
        let s' := submit s in
        let hit := indexToChoice sel = Question.correctChoice q in
        submitted s' = true
        /\ answeredCount s' = answeredCount s + 1
        /\ (hit -> correctCount s' = correctCount s + 1
                   /\ incorrectIds s' = incorrectIds s)
        /\ (~ hit -> correctCount s' = correctCount s
                     /\ Question.id q ∈ incorrectIds s'
                     /\ (forall x, x ∈ incorrectIds s' <->
                                   x ∈ incorrectIds s \/ x = Question.id q)
                     /\ (NoDup (incorrectIds s) -> NoDup (incorrectIds s'))
                     /\ (Question.id q ∈ incorrectIds s -> incorrectIds s' = incorrectIds s)
                     /\ (Question.id q ∉ incorrectIds s ->
                         incorrectIds s' = incorrectIds s ++ [Question.id q]))
        /\ (index s = total s - 1 -> showReview s' = true)
        /\ (index s <> total s - 1 -> showReview s' = showReview s)
        /\ questions s' = questions s /\ index s' = index s
        /\ selectedIndex s' = selectedIndex s /\ sessionId s' = sessionId s
        /\ submit s' = s').
Proof.
  split.
  - intros [H | [H | H]]; [| |by apply submit_when_submitted].
    + unfold submit. by rewrite H.
    + unfold submit. rewrite H. by destruct (current s).
  - intros q sel Hq Hsel Hsub. cbv zeta.
    rewrite (submit_fires s q sel Hq Hsel Hsub).
    destruct (record_miss (incorrectIds s) (Question.id q)) as (M1 & M2 & M3 & M4 & M5).
    assert (Hdone : submitted (submit_end (index s) (total s) (submit_body q sel s)) = true).
    { unfold submit_end, submit_body. by repeat (case_decide || case_bool_decide). }
    split; [exact Hdone|].
    unfold submit_end, submit_body in *.
    destruct (decide (index s = total s - 1)) as [Hlast|Hlast];
      destruct (bool_decide_reflect (indexToChoice sel = Question.correctChoice q))
        as [Hhit|Hhit];
      cbn in *;
      (repeat split; try done; try tauto; try (by apply submit_when_submitted));
      apply M2.
Qed.

(** ** Advance *)

(** C9. [next] does nothing before the current question is submitted.
    After it, with more questions left, it moves to the next index and
    clears the choice and the submitted flag; on the last question it
    switches to the review, which is then the screen shown. *)
Theorem next_effect (s : State) :
  (submitted s = false -> next s = s)
  /\ (submitted s = true -> index s < total s - 1 ->
      index (next s) = index s + 1
      /\ selectedIndex (next s) = None
      /\ submitted (next s) = false
      /\ showReview (next s) = showReview s
      /\ questions (next s) = questions s
      /\ correctCount (next s) = correctCount s
      /\ answeredCount (next s) = answeredCount s
      /\ incorrectIds (next s) = incorrectIds s
      /\ sessionId (next s) = sessionId s)
  /\ (submitted s = true -> index s = total s - 1 ->
      next s = setShowReview true s
      /\ showReview (next s) = true
      /\ (screen s = QuizScreen -> screen (next s) = ReviewScreen)).
Proof.
  split; [|split].
  - intros Hsub. unfold next. by rewrite Hsub.
  - intros Hsub Hidx. unfold next. rewrite Hsub. cbn [negb].
    destruct (Z.ltb_spec (index s) (total s - 1)); [done | lia].
  - intros Hsub Hidx. unfold next. rewrite Hsub. cbn [negb].
    destruct (Z.ltb_spec (index s) (total s - 1)); [lia|].
    split; [done|]. split; [done|].
    unfold screen, current. cbn.
    destruct (loading s); [done|]. destruct (truthy (error s)); [done|].
    destruct (at_index (questions s) (index s)); [|done]. by destruct (showReview s).
Qed.

(** ** Actions whose precondition is unmet *)

Lemma dispatch_off_screen (ev : Event) (s : State) (g : Rng) :
  current s = None -> loading s = false -> dispatch ev s g = (s, g).
Proof.
  intros Hq Hl. unfold dispatch, screen. rewrite Hq, Hl.
  destruct (truthy (error s)); by destruct ev.
Qed.

(** C4. With no incorrect id recorded, the retry-incorrect action does
    nothing: the button is disabled (and absent outside the review), so
    the state, with its question set, index, counts and session token, and
    the random source stay as they are.  The same holds for the other
    guarded actions: submit without a choice or after submission, next
    before submission, choosing after submission, and every action while
    no question is loaded. *)
Theorem retry_without_misses_is_noop (s : State) (g : Rng) :
  (forall newSess, length (incorrectIds s) = 0%nat ->
                   dispatch (ClickRetryIncorrect newSess) s g = (s, g))
  /\ (selectedIndex s = None \/ submitted s = true -> dispatch ClickSubmit s g = (s, g))
  /\ (submitted s = false -> dispatch ClickNext s g = (s, g))
  /\ (forall idx, submitted s = true -> dispatch (ClickChoice idx) s g = (s, g))
  /\ (forall ev, current s = None -> loading s = false -> dispatch ev s g = (s, g)).
Proof.
  split; [|split; [|split; [|split]]].
  - intros newSess Hlen. unfold dispatch. rewrite Hlen. by destruct (screen s).
  - intros H. unfold dispatch.
    destruct (screen s); try done.
    by destruct H as [-> | ->]; [|rewrite orb_true_r].
  - intros H. unfold dispatch. rewrite H. by destruct (screen s).
  - intros idx H. unfold dispatch.
    destruct (screen s); try done. destruct (current s); [|done].
    rewrite H. cbn [negb]. by rewrite andb_false_r.
  - intros ev. apply dispatch_off_screen.
Qed.

(** ** Retry incorrect only *)

Lemma submseteq_NoDup_fmap (l k : list Question.t) :
  l ⊆+ k -> NoDup (Question.id <$> k) -> NoDup (Question.id <$> l).
Proof.
  intros Hsub Hnd. destruct (submseteq_Permutation _ _ Hsub) as [r Hr].
  rewrite Hr, fmap_app in Hnd. by apply NoDup_app in Hnd as [? _].
Qed.

(** The questions kept by the filter of [retryIncorrectOnly] are as many
    as the recorded ids, when these are distinct ids of distinct
    questions. *)
Lemma missed_filter_length (qs : list Question.t) (ids : list string) :
  NoDup (Question.id <$> qs) -> NoDup ids ->
  (forall x, x ∈ ids -> x ∈ Question.id <$> qs) ->
  length (filter (fun qq => Question.id qq ∈ (list_to_set ids : gset string)) qs)
  = length ids.
Proof.
  intros Hqs Hids Hin.
  set (F := filter _ qs).
  rewrite <- (length_fmap Question.id F). apply Permutation_length.
  apply NoDup_Permutation; [|done|].
  - apply (submseteq_NoDup_fmap F qs); [|done].
    apply sublist_submseteq, sublist_filter.
  - intros x. rewrite list_elem_of_fmap. split.
    + intros (q & -> & Hq). apply list_elem_of_filter in Hq as [Hq _].
      by apply elem_of_list_to_set in Hq.
    + intros Hx. pose proof (Hin x Hx) as Hx'.
      apply list_elem_of_fmap in Hx' as (q & -> & Hq).
      exists q. split; [done|]. apply list_elem_of_filter. split; [|done].
      by apply elem_of_list_to_set.
Qed.


(** ** The session invariant holds in every reachable state *)

Lemma at_index_elem_of {T} (a : list T) (i : Z) (x : T) : at_index a i = Some x -> x ∈ a.
Proof.
  unfold at_index. destruct (i <? 0); [done|]. intros H.
  apply list_elem_of_lookup. eauto.
Qed.

Lemma fresh_session_inv (qs : list Question.t) (s : State) :
  NoDup (Question.id <$> qs) -> questions s = qs -> incorrectIds s = [] -> session_inv s.
Proof.
  intros Hqs Eq Ei. unfold session_inv. rewrite Eq, Ei.
  split; [done|]. split; [apply NoDup_nil_2|]. intros _ x Hx. by apply elem_of_nil in Hx.
Qed.

Lemma same_session_inv (s s' : State) :
  questions s' = questions s -> incorrectIds s' = incorrectIds s ->
  session_inv s -> session_inv s'.
Proof. unfold session_inv. by intros -> ->. Qed.

(** [submit] keeps the question list, and either keeps the incorrect ids
    or records the id of the current question. *)
Lemma submit_tracking (s : State) :
  questions (submit s) = questions s
  /\ (incorrectIds (submit s) = incorrectIds s
      \/ exists q, current s = Some q
                   /\ incorrectIds (submit s)
                      = if includes (incorrectIds s) (Question.id q) then incorrectIds s
                        else incorrectIds s ++ [Question.id q]).
Proof.
  unfold submit, submit_end, submit_body.
  destruct (current s) as [q|]; [|by auto].
  destruct (selectedIndex s) as [sel|]; [|by auto].
  destruct (submitted s); [by auto|].
  destruct (decide (index s = total s - 1));
    destruct (bool_decide (indexToChoice sel = Question.correctChoice q));
    cbn; split; try done; eauto.
Qed.

Lemma submit_inv (s : State) : session_inv s -> session_inv (submit s).
Proof.
  intros (I1 & I2 & I3).
  destruct (submit_tracking s) as (Eqs & [Ei | (q & Hq & Ei)]).
  - by apply (same_session_inv s).
  - destruct (record_miss (incorrectIds s) (Question.id q)) as (_ & Hiff & Hnd & _).
    unfold session_inv. rewrite Eqs, Ei.
    split; [done|]. split; [auto|].
    intros Hne x [Hx| ->]%Hiff; [auto|].
    apply list_elem_of_fmap_2. by apply at_index_elem_of in Hq.
Qed.

Lemma mapRow_ids (rows : list DbRow.t) :
  Question.id <$> (map mapRow rows) = DbRow.id <$> rows.
Proof. induction rows as [|r rows IH]; [done|]. cbn. by f_equal. Qed.

Lemma loadQuestions_inv (selectedMode : Mode) (res : string + list DbRow.t)
    (newSess : string) (s : State) (g : Rng) :
  rows_ok res -> session_inv s -> session_inv (loadQuestions selectedMode res newSess s g).1.
Proof.
  intros Hres (I1 & I2 & I3). unfold loadQuestions.
  destruct res as [message|rows].
  - cbn. unfold session_inv. cbn. split; [apply NoDup_nil_2|]. split; done.
  - unfold mbind, Rand_bind, mret, Rand_ret.
    pose proof (pickWeighted_submseteq (map mapRow rows)
                  (clampInt (QuizSize_value (quizSize (setError None (setLoading true s)))) 1 500)
                  selectedMode g) as Hsub.
    destruct (pickWeighted _ _ _ g) as [picked g']. cbn [fst] in Hsub |- *.
    eapply fresh_session_inv; [|reflexivity|reflexivity]. cbn.
    apply (submseteq_NoDup_fmap picked (map mapRow rows) Hsub).
    by rewrite mapRow_ids.
Qed.

Lemma reshuffle_inv (newSess : string) (s : State) (g : Rng) :
  session_inv s -> session_inv (reshuffle newSess s g).1.
Proof.
  intros (I1 & _). unfold reshuffle, mbind, Rand_bind, mret, Rand_ret.
  run_shuffle S g' PS. cbn [fst].
  eapply fresh_session_inv; [|reflexivity|reflexivity]. cbn. by rewrite PS.
Qed.

Lemma retryIncorrectOnly_inv (newSess : string) (s : State) (g : Rng) :
  session_inv s -> session_inv (retryIncorrectOnly newSess s g).1.
Proof.
  intros (I1 & _). unfold retryIncorrectOnly, mbind, Rand_bind, mret, Rand_ret.
  set (F := filter _ (questions s)).
  run_shuffle S g' PS. cbn [fst].
  eapply fresh_session_inv; [|reflexivity|reflexivity]. cbn. rewrite PS.
  apply (submseteq_NoDup_fmap F (questions s)); [|done].
  apply sublist_submseteq, sublist_filter.
Qed.

Lemma dispatch_inv (ev : Event) (s : State) (g : Rng) :
  event_ok ev -> session_inv s -> session_inv (dispatch ev s g).1.
Proof.
  intros Hev Hinv. unfold dispatch.
  destruct (screen s), ev; cbn [event_ok] in Hev; try exact Hinv;
    try (by apply loadQuestions_inv); try (by apply reshuffle_inv);
    try (case_decide; [exact Hinv|]; apply loadQuestions_inv; [done|];
         by apply (same_session_inv s)).
  - destruct Hinv as (I1 & _). by apply (fresh_session_inv (questions s)).
  - destruct (bool_decide _); [exact Hinv | by apply retryIncorrectOnly_inv].
  - destruct (missed s !! i); [|exact Hinv]. by apply (same_session_inv s).
  - destruct (current s); [|exact Hinv]. destruct (_ && _); [|exact Hinv].
    unfold selectChoice. destruct (submitted s); [exact Hinv|]. by apply (same_session_inv s).
  - destruct (_ || _); [exact Hinv|]. by apply submit_inv.
  - destruct (negb (submitted s)) eqn:Hn; [exact Hinv|]. cbn [fst mret Rand_ret].
    unfold next. rewrite Hn. destruct (_ <? _); by apply (same_session_inv s).
Qed.

Lemma reachable_session_inv (s : State) : reachable s -> session_inv s.
Proof.
  induction 1 as [sess | s ev g _ IH Hev].
  - by apply (fresh_session_inv []); [apply NoDup_nil_2 | |].
  - by apply dispatch_inv.
Qed.

(** The handler [retryIncorrectOnly] has no guard of its own: called with
    no id recorded it would start an empty session.  Only the [disabled]
    attribute of its button keeps that from happening. *)
Remark retryIncorrectOnly_unguarded (newSess : string) (s : State) (g : Rng) :
  incorrectIds s = [] ->
  questions (retryIncorrectOnly newSess s g).1 = []
  /\ sessionId (retryIncorrectOnly newSess s g).1 = newSess.
Proof.
  intros Hi. unfold retryIncorrectOnly, mbind, Rand_bind, mret, Rand_ret.
  set (F := filter _ (questions s)).
  assert (HF : F = []).
  { apply elem_of_nil_inv. intros q [Hq _]%list_elem_of_filter.
    rewrite Hi in Hq. by apply elem_of_list_to_set, elem_of_nil in Hq. }
  rewrite HF. by cbn.
Qed.

Lemma review_screen_has_questions (s : State) :
  screen s = ReviewScreen -> questions s <> [].
Proof.
  unfold screen, current, at_index.
  destruct (loading s); [done|]. destruct (truthy (error s)); [done|].
  intros H Hnil. rewrite Hnil in H. by destruct (index s <? 0).
Qed.

(** On the review screen of a reachable session, a click on the enabled
    Retry button runs the handler, and the new session has one question
    per recorded id. *)
Lemma retry_click_in_review (s : State) (newSess : string) (g : Rng) :
  reachable s -> screen s = ReviewScreen -> incorrectIds s <> [] ->
  dispatch (ClickRetryIncorrect newSess) s g = retryIncorrectOnly newSess s g
  /\ length (questions (dispatch (ClickRetryIncorrect newSess) s g).1)
     = length (incorrectIds s).
Proof.
  intros Hr Hscr Hne.
  assert (Hd : dispatch (ClickRetryIncorrect newSess) s g = retryIncorrectOnly newSess s g).
  { unfold dispatch. rewrite Hscr. case_bool_decide as Hlen; [|done].
    by apply nil_length_inv in Hlen. }
  split; [done|]. rewrite Hd.
  destruct (reachable_session_inv s Hr) as (I1 & I2 & I3).
  specialize (I3 (review_screen_has_questions s Hscr)).
  unfold retryIncorrectOnly, mbind, Rand_bind, mret, Rand_ret.
  set (F := filter _ (questions s)).
  run_shuffle Sh g' PS. cbn.
  rewrite (Permutation_length PS). by apply missed_filter_length.
Qed.

(** ** Feedback policy *)

(** In exam mode a submitted question shows every choice the same way,
    whatever the correct answer, the selection and the explanation are. *)
Lemma exam_choice_hidden (s : State) (q : Question.t) (idx : Z) (choice : string) :
  mode s = exam -> submitted s = true ->
  renderChoice s q idx choice =
  {| cv_key := idx; cv_text := choice;
     cv_className := choiceClassName true true false false false;
     cv_disabled := true; cv_correctBadge := false; cv_incorrectBadge := false |}.
Proof.
  intros Hm Hs. unfold renderChoice, isExamLock. rewrite Hm, Hs. cbn.
  by destruct (bool_decide (selectedIndex s = Some idx)).
Qed.

Lemma exam_hides_feedback (s1 s2 : State) (q1 q2 : Question.t) :
  mode s1 = exam -> mode s2 = exam -> submitted s1 = true -> submitted s2 = true ->
  Question.choices q1 = Question.choices q2 ->
  renderChoices s1 q1 = renderChoices s2 q2
  /\ renderFeedback s1 q1 = ExamHint /\ renderFeedback s2 q2 = ExamHint.
Proof.
  intros M1 M2 S1 S2 Hc. split; [|split].
  - unfold renderChoices. rewrite Hc. apply imap_ext. intros i x _.
    by rewrite !exam_choice_hidden.
  - unfold renderFeedback, isExamLock. by rewrite M1, S1.
  - unfold renderFeedback, isExamLock. by rewrite M2, S2.
Qed.

(** In balanced mode a submitted question shows the verdict and the
    explanation, and marks the correct choice. *)
Lemma balanced_reveals (s : State) (q : Question.t) :
  mode s = balanced -> submitted s = true ->
  renderFeedback s q = Explanation (isCorrect s) (Question.explanation q)
  /\ forall idx choice,
      cv_correctBadge (renderChoice s q idx choice)
      = bool_decide (idx = Question.correctIndex q).
Proof.
  intros Hm Hs. unfold renderFeedback, renderChoice, isExamLock. rewrite Hm, Hs. cbn.
  split; [done|]. intros idx _. by destruct (bool_decide (idx = Question.correctIndex q)).
Qed.

(** In both modes the review lists every missed question with its
    correct choice and its explanation. *)
Lemma review_lists_missed (s : State) (q : Question.t) :
  q ∈ questions s -> Question.id q ∈ incorrectIds s ->
  exists v, v ∈ rv_missed (renderReview s)
            /\ mv_key v = Question.id q
            /\ mv_correctLetter v = indexToChoice (Question.correctIndex q)
            /\ mv_correctText v = at_index (Question.choices q) (Question.correctIndex q)
            /\ mv_explanation v = Question.explanation q.
Proof.
  intros Hq Hid.
  assert (Hm : q ∈ missed s).
  { unfold missed. apply list_elem_of_filter. split; [|done]. by apply includes_spec. }
  apply list_elem_of_lookup in Hm as [i Hi].
  exists (renderMissed i q). split; [|done].
  apply list_elem_of_lookup. exists i. cbn. by rewrite list_lookup_imap, Hi.
Qed.

(** C5, where the code departs from it.  Two exam sessions that differ
    only in which choice of the current question is correct, the same
    choice selected in both: after [submit] the choice buttons and the
    panel below them are the same, but the score badge reads 1/1 in one
    and 0/1 in the other, so the per-question screen tells whether the
    answer was correct. *)
Theorem exam_score_reveals_correctness :
  let other := sampleQuestion "q2" medium C in
  let sA := sampleSession exam [sampleQuestion "q1" easy A; other] in
  let sB := sampleSession exam [sampleQuestion "q1" easy B; other] in
  exists vA vB,
    render (submit sA) = VQuiz vA /\ render (submit sB) = VQuiz vB
    /\ qv_choices vA = qv_choices vB
    /\ qv_feedback vA = ExamHint /\ qv_feedback vB = ExamHint
    /\ qv_score vA = (1, 1) /\ qv_score vB = (0, 1)
    /\ render (submit sA) <> render (submit sB).
Proof.
  cbv zeta. eexists _, _.
  split; [reflexivity|]. split; [reflexivity|].
  repeat split; try reflexivity. intros H. discriminate H.
Qed.

(** ** The theorems on the sample data *)

Lemma pickWeighted_length_witness :
  1 <= 5 <= MAX_SAFE_INTEGER
  /\ Z.of_nat (length (pickWeighted samplePool 5 balanced sampleRng).1)
     = Z.min 5 (Z.of_nat (length samplePool)).
Proof.
  assert (H : 1 <= 5 <= MAX_SAFE_INTEGER) by (unfold MAX_SAFE_INTEGER; lia).
  split; [exact H|].
  exact (proj1 (pickWeighted_length samplePool 5 balanced sampleRng H)).
Defined.

Lemma submit_effect_witness :
  current (sampleSession balanced samplePool) = Some (sampleQuestion "e1" easy A)
  /\ selectedIndex (sampleSession balanced samplePool) = Some 0
  /\ submitted (sampleSession balanced samplePool) = false
  /\ answeredCount (submit (sampleSession balanced samplePool)) = 0 + 1
  /\ submitted (submit (sampleSession balanced samplePool)) = true.
Proof.
  assert (Hq : current (sampleSession balanced samplePool) = Some (sampleQuestion "e1" easy A))
    by reflexivity.
  assert (Hsel : selectedIndex (sampleSession balanced samplePool) = Some 0) by reflexivity.
  assert (Hsub : submitted (sampleSession balanced samplePool) = false) by reflexivity.
  destruct (proj2 (submit_effect (sampleSession balanced samplePool)) _ _ Hq Hsel Hsub)
    as (H1 & H2 & _).
  repeat split; assumption.
Defined.

Lemma pickWeighted_difficulty_mix_witness :
  length (bucket easy samplePool) = 3%nat
  /\ length (bucket medium samplePool) = 3%nat
  /\ length (bucket hard samplePool) = 3%nat
  /\ length (bucket easy (pickWeighted samplePool 5 balanced sampleRng).1) = 2%nat
  /\ length (bucket medium (pickWeighted samplePool 5 balanced sampleRng).1) = 3%nat
  /\ length (bucket hard (pickWeighted samplePool 5 balanced sampleRng).1) = 0%nat.
Proof.
  assert (HE : length (bucket easy samplePool) = 3%nat) by reflexivity.
  assert (HM : length (bucket medium samplePool) = 3%nat) by reflexivity.
  assert (HH : length (bucket hard samplePool) = 3%nat) by reflexivity.
  destruct (proj2 (proj2 pickWeighted_difficulty_mix) samplePool sampleRng HE HM HH)
    as (H1 & H2 & H3 & _).
  repeat split; assumption.
Defined.

Lemma retry_without_misses_is_noop_witness :
  length (incorrectIds (setShowReview true (sampleSession exam samplePool))) = 0%nat
  /\ dispatch (ClickRetryIncorrect "sess_1")
       (setShowReview true (sampleSession exam samplePool)) sampleRng
     = (setShowReview true (sampleSession exam samplePool), sampleRng).
Proof.
  assert (H : length (incorrectIds (setShowReview true (sampleSession exam samplePool)))
              = 0%nat) by reflexivity.
  split; [exact H|].
  exact (proj1 (retry_without_misses_is_noop
                  (setShowReview true (sampleSession exam samplePool)) sampleRng)
               "sess_1"%string H).
Defined.

Lemma samplePool_distinct : NoDup (Question.id <$> samplePool).
Proof. apply (bool_decide_unpack _). vm_compute. exact I. Defined.

Lemma pickWeighted_without_replacement_witness :
  NoDup (Question.id <$> samplePool)
  /\ NoDup (Question.id <$> (pickWeighted samplePool 5 exam sampleRng).1).
Proof.
  split; [exact samplePool_distinct|].
  exact (proj1 (pickWeighted_without_replacement samplePool 5 exam sampleRng
                  samplePool_distinct)).
Defined.

Lemma pickWeighted_hard_shortfall_witness :
  length (bucket hard shortOfHardPool) = 1%nat
  /\ (10 <= length (bucket easy shortOfHardPool))%nat
  /\ (10 <= length (bucket medium shortOfHardPool))%nat
  /\ length (pickWeighted shortOfHardPool 10 balanced sampleRng).1 = 10%nat
  /\ length (bucket hard (pickWeighted shortOfHardPool 10 balanced sampleRng).1) = 1%nat.
Proof.
  assert (HH : length (bucket hard shortOfHardPool) = 1%nat) by reflexivity.
  assert (HE : (10 <= length (bucket easy shortOfHardPool))%nat) by (vm_compute; lia).
  assert (HM : (10 <= length (bucket medium shortOfHardPool))%nat) by (vm_compute; lia).
  destruct (pickWeighted_hard_shortfall shortOfHardPool sampleRng HH HE HM) as (H1 & H2 & _).
  repeat split; assumption.
Defined.



Lemma next_effect_witness :
  submitted (submit (sampleSession exam samplePool)) = true
  /\ index (submit (sampleSession exam samplePool))
     < total (submit (sampleSession exam samplePool)) - 1
  /\ index (next (submit (sampleSession exam samplePool))) = 0 + 1
  /\ submitted (next (submit (sampleSession exam samplePool))) = false.
Proof.
  assert (Hsub : submitted (submit (sampleSession exam samplePool)) = true) by reflexivity.
  assert (Hidx : index (submit (sampleSession exam samplePool))
                 < total (submit (sampleSession exam samplePool)) - 1) by reflexivity.
  destruct (proj1 (proj2 (next_effect (submit (sampleSession exam samplePool)))) Hsub Hidx)
    as (H1 & _ & H3 & _).
  repeat split; assumption.
Defined.

(** * Further properties of the code *)

(** ** Choice letters and indices *)


(** ** [clampInt] *)

(** X2. With [min <= max], [clampInt] lands in [[min, max]], leaves a
    number of that range as it is, sends smaller numbers to [min] and
    larger ones to [max], and clamping twice is clamping once.  The four
    quiz sizes pass through [clampInt(quizSize, 1, 500)] unchanged. *)
Theorem clampInt_range (n lo hi : Z) :
  lo <= hi ->
  lo <= clampInt n lo hi <= hi
  /\ (lo <= n <= hi -> clampInt n lo hi = n)
  /\ (n <= lo -> clampInt n lo hi = lo)
  /\ (hi <= n -> clampInt n lo hi = hi)
  /\ clampInt (clampInt n lo hi) lo hi = clampInt n lo hi
  /\ (forall size : QuizSize, clampInt (QuizSize_value size) 1 500 = QuizSize_value size).
Proof.
  intros Hle. unfold clampInt, Math_max, Math_min.
  repeat split; try lia. by intros [].
Qed.

Lemma clampInt_range_witness :
  1 <= 500 /\ clampInt 9000 1 500 = 500 /\ clampInt (-3) 1 500 = 1.
Proof.
  assert (H : 1 <= 500) by lia.
  destruct (clampInt_range 9000 1 500 H) as (_ & _ & _ & H1 & _).
  destruct (clampInt_range (-3) 1 500 H) as (_ & _ & H2 & _).
  split; [exact H|]. split; [apply H1 | apply H2]; lia.
Defined.

(** ** More on [shuffle] *)

Lemma shuffle_from_rest {T} (i : nat) (a : list T) (g : Rng) (k : nat) :
  (shuffle_from i a g).2 k = g (k + i)%nat.
Proof.
  revert a g k. induction i as [|i IH]; intros a g k.
  - cbn. f_equal. lia.
  - cbn [shuffle_from]. unfold mbind, Rand_bind, random_below.
    rewrite IH. f_equal. lia.
Qed.

Lemma shuffle_from_ext {T} (i : nat) (a : list T) (g g' : Rng) :
  (forall k, (k < i)%nat -> g k = g' k) ->
  (shuffle_from i a g).1 = (shuffle_from i a g').1.
Proof.
  revert a g g'. induction i as [|i IH]; intros a g g' Hg; [done|].
  cbn [shuffle_from]. unfold mbind, Rand_bind, random_below.
  rewrite (Hg 0%nat) by lia. apply IH. intros k Hk. apply Hg. lia.
Qed.

(** X3. [shuffle] keeps the length, returns an array of at most one
    element as it is, draws exactly [length - 1] random numbers and is
    determined by them. *)
Theorem shuffle_draws {T} (arr : list T) (g : Rng) :
  length (shuffle arr g).1 = length arr
  /\ ((length arr <= 1)%nat -> (shuffle arr g).1 = arr)
  /\ (forall k, (shuffle arr g).2 k = g (k + (length arr - 1))%nat)
  /\ (forall g' : Rng, (forall k, (k < length arr - 1)%nat -> g k = g' k) ->
                       (shuffle arr g).1 = (shuffle arr g').1).
Proof.
  split; [apply Permutation_length, shuffle_Permutation|]. split; [|split].
  - intros Hle. unfold shuffle. by replace (length arr - 1)%nat with 0%nat by lia.
  - intros k. apply shuffle_from_rest.
  - intros g' Hg. by apply shuffle_from_ext.
Qed.

Lemma swap_lookup {T} (a : list T) (i j k : nat) :
  (i < length a)%nat -> (j < length a)%nat ->
  swap a i j !! k = if decide (k = j) then a !! i else if decide (k = i) then a !! j else a !! k.
Proof.
  intros Hi Hj. destruct (swap_in_range a i j Hi Hj) as (ai & aj & Eai & Eaj & ->).
  destruct (decide (k = j)) as [->|Hkj].
  - rewrite list_lookup_insert_eq by (rewrite length_insert; lia). done.
  - rewrite list_lookup_insert_ne by done.
    destruct (decide (k = i)) as [->|Hki].
    + by rewrite list_lookup_insert_eq.
    + by rewrite list_lookup_insert_ne.
Qed.

(** From index [i] down, the loop of [shuffle] can finish any rearrangement
    that already agrees with the array above [i]. *)
Lemma shuffle_from_reaches {T} (i : nat) (a b : list T) :
  a ≡ₚ b -> (i < length a \/ (i = 0%nat /\ a = []))%nat ->
  (forall k, (i < k)%nat -> a !! k = b !! k) ->
  exists g : Rng, (shuffle_from i a g).1 = b.
Proof.
  revert a b. induction i as [|i IH]; intros a b Hp Hi Hagree.
  - exists (fun _ => 0%nat). cbn.
    destruct a as [|x a'].
    { by apply Permutation_nil_l in Hp. }
    destruct b as [|y b']; [by apply Permutation_nil_r in Hp|].
    assert (a' = b') as ->.
    { apply list_eq. intros k. apply (Hagree (S k)). lia. }
    f_equal. change (x :: b') with ([x] ++ b') in Hp. change (y :: b') with ([y] ++ b') in Hp.
    apply Permutation_app_inv_r in Hp. by apply Permutation_singleton_l in Hp as [=].
  - destruct Hi as [Hi | [? _]]; [|done].
    assert (Hlen : length b = length a) by (symmetry; by apply Permutation_length).
    destruct (lookup_lt_is_Some_2 b (S i)) as [y Hy]; [lia|].
    assert (Hdrop : drop (S (S i)) a = drop (S (S i)) b).
    { apply list_eq. intros k. rewrite !lookup_drop. apply Hagree. lia. }
    assert (Htake : take (S (S i)) a ≡ₚ take (S (S i)) b).
    { apply (Permutation_app_inv_r (drop (S (S i)) a)).
      rewrite take_drop, Hdrop, take_drop. done. }
    assert (Hin : y ∈ take (S (S i)) a).
    { rewrite Htake. apply list_elem_of_lookup. exists (S i).
      rewrite lookup_take_lt by lia. done. }
    apply list_elem_of_lookup in Hin as [j Hj].
    assert (Hjlt : (j < S (S i))%nat).
    { apply lookup_lt_Some in Hj. rewrite length_take in Hj. lia. }
    rewrite lookup_take_lt in Hj by lia.
    destruct (IH (swap a (S i) j) b) as [g' Hg'].
    + by rewrite swap_Permutation.
    + left. rewrite swap_length. lia.
    + intros k Hk. rewrite swap_lookup by lia.
      destruct (decide (k = j)) as [->|Hkj].
      { assert (j = S i) as -> by lia. by rewrite Hj, Hy. }
      destruct (decide (k = S i)) as [->|Hki]; [by rewrite Hj, Hy|].
      apply Hagree. lia.
    + exists (fun k => match k with O => j | S k' => g' k' end).
      cbn [shuffle_from]. unfold mbind, Rand_bind, random_below.
      rewrite Nat.mod_small by lia. exact Hg'.
Qed.

(** X4. [shuffle] can return every rearrangement of its argument: for
    each permutation of the array there are draws that produce it. *)
Theorem shuffle_reaches_every_order {T} (arr b : list T) :
  arr ≡ₚ b -> exists g : Rng, (shuffle arr g).1 = b.
Proof.
  intros Hp. unfold shuffle. apply shuffle_from_reaches; [done| |].
  - destruct arr as [|x arr']; [by right|]. left. cbn. lia.
  - intros k Hk. rewrite !lookup_ge_None_2; [done| |]; [rewrite <- (Permutation_length Hp)|]; lia.
Qed.

Lemma shuffle_reaches_every_order_witness :
  [1; 2; 3]%nat ≡ₚ [3; 1; 2]%nat
  /\ exists g : Rng, (shuffle [1; 2; 3]%nat g).1 = [3; 1; 2]%nat.
Proof.
  assert (H : [1; 2; 3]%nat ≡ₚ [3; 1; 2]%nat).
  { symmetry. apply (Permutation_cons_append [1; 2]%nat 3%nat). }
  split; [exact H|]. exact (shuffle_reaches_every_order _ _ H).
Defined.

(** ** Difficulty mix when a bucket is short *)

Lemma submseteq_Forall {T} (P : T -> Prop) (l k : list T) :
  l ⊆+ k -> Forall P k -> Forall P l.
Proof.
  intros Hsub Hk. apply Forall_forall. intros x Hx.
  rewrite Forall_forall in Hk. apply Hk. by eapply elem_of_submseteq.
Qed.

(** X5. For every safe integer size, each difficulty is represented by
    at least [min(target, available)] questions of the selection, the
    guaranteed take of its bucket, and by no more than the pool holds. *)
Theorem pickWeighted_bucket_floor
    (pool : list Question.t) (size : Z) (m : Mode) (g : Rng) (d : Difficulty) :
  1 <= size <= MAX_SAFE_INTEGER ->
  let target := match d with
                | easy => targetEasy size m
                | medium => targetMed size m
                | hard => targetHard size m
                end in
  let picked := (pickWeighted pool size m g).1 in
  Z.min target (Z.of_nat (length (bucket d pool))) <= Z.of_nat (length (bucket d picked))
  /\ (length (bucket d picked) <= length (bucket d pool))%nat.
Proof.
  intros Hs. cbv zeta. split.
  - destruct (pickWeighted_shape pool size m g Hs)
      as (E & M & H & fill & rest & tE & tM & tH
          & PE & PM & PH & HtE & HtM & HtH & Hres & _ & _).
    rewrite (Permutation_length (bucket_Permutation _ _ _ Hres)), bucket_app, length_app.
    rewrite (bucket_of_takes d pool) by done.
    pose proof (Permutation_length PE) as LE. pose proof (Permutation_length PM) as LM.
    pose proof (Permutation_length PH) as LH.
    unfold Math_min in *.
    destruct d; rewrite length_take; lia.
  - destruct (submseteq_Permutation _ _ (pickWeighted_submseteq pool size m g)) as [k Hk].
    pose proof (Permutation_length (bucket_Permutation d _ _ Hk)) as HL.
    rewrite bucket_app, length_app in HL. lia.
Qed.

Lemma pickWeighted_bucket_floor_witness :
  1 <= 10 <= MAX_SAFE_INTEGER
  /\ Z.min (targetHard 10 balanced) (Z.of_nat (length (bucket hard shortOfHardPool)))
     <= Z.of_nat (length (bucket hard (pickWeighted shortOfHardPool 10 balanced sampleRng).1)).
Proof.
  assert (H : 1 <= 10 <= MAX_SAFE_INTEGER) by (unfold MAX_SAFE_INTEGER; lia).
  split; [exact H|].
  exact (proj1 (pickWeighted_bucket_floor shortOfHardPool 10 balanced sampleRng hard H)).
Defined.

(** ** Rows and questions *)

(** X6. The question built from a row has four choices, a correct index
    within 0..3 whose letter is the row's correct letter and whose choice
    text is the matching column, and the row's explanation or the stock
    sentence when the row has none. *)
Theorem mapRow_well_formed (r : DbRow.t) :
  Question_wf (mapRow r)
  /\ 0 <= Question.correctIndex (mapRow r) <= 3
  /\ indexToChoice (Question.correctIndex (mapRow r)) = DbRow.correct_choice r
  /\ at_index (Question.choices (mapRow r)) (Question.correctIndex (mapRow r))
     = Some (match DbRow.correct_choice r with
             | A => DbRow.choice_a r | B => DbRow.choice_b r
             | C => DbRow.choice_c r | D => DbRow.choice_d r
             end)
  /\ Question.explanation (mapRow r)
     = match DbRow.explanation r with
       | Some e => e
       | None => "No explanation provided."%string
       end
  /\ Question.id (mapRow r) = DbRow.id r.
Proof.
  unfold Question_wf. cbn. destruct (DbRow.correct_choice r), (DbRow.explanation r); cbn;
    repeat split; try done; lia.
Qed.

(** ** Loading *)

Lemma mapRow_Forall_wf (rows : list DbRow.t) : Forall Question_wf (map mapRow rows).
Proof.
  apply Forall_forall. intros q (r & -> & _)%list_elem_of_fmap.
  split; [done|]. by cbn.
Qed.

Lemma quizSize_safe (size : QuizSize) :
  1 <= clampInt (QuizSize_value size) 1 500 <= MAX_SAFE_INTEGER
  /\ clampInt (QuizSize_value size) 1 500 = QuizSize_value size.
Proof.
  unfold MAX_SAFE_INTEGER, clampInt, Math_max, Math_min.
  destruct size; cbn [QuizSize_value]; lia.
Qed.

(** X7. A load that succeeds starts a session of
    [min(quizSize, number of rows)] questions taken from the mapped rows
    (with distinct ids when the rows have them), on question 0, with no
    choice, nothing submitted, both counts 0, no missed id, the review
    closed, no error, the new session token, and mode, quiz size and
    domain as they were. *)
Theorem loadQuestions_success (selectedMode : Mode) (rows : list DbRow.t)
    (newSess : string) (s : State) (g : Rng) :
  let s' := (loadQuestions selectedMode (inr rows) newSess s g).1 in
  questions s' ⊆+ map mapRow rows
  /\ Z.of_nat (length (questions s'))
     = Z.min (QuizSize_value (quizSize s)) (Z.of_nat (length rows))
  /\ Forall Question_wf (questions s')
  /\ (NoDup (DbRow.id <$> rows) -> NoDup (Question.id <$> questions s'))
  /\ index s' = 0 /\ selectedIndex s' = None /\ submitted s' = false
  /\ correctCount s' = 0 /\ answeredCount s' = 0 /\ incorrectIds s' = []
  /\ showReview s' = false /\ loading s' = false /\ error s' = None
  /\ sessionId s' = newSess
  /\ mode s' = mode s /\ quizSize s' = quizSize s /\ domain s' = domain s.
Proof.
  cbv zeta. unfold loadQuestions, mbind, Rand_bind, mret, Rand_ret.
  cbn [quizSize setError setLoading].
  destruct (quizSize_safe (quizSize s)) as [Hsafe Hclamp].
  pose proof (pickWeighted_submseteq (map mapRow rows)
                (clampInt (QuizSize_value (quizSize s)) 1 500) selectedMode g) as Hsub.
  pose proof (pickWeighted_length_nat (map mapRow rows)
                (clampInt (QuizSize_value (quizSize s)) 1 500) selectedMode g Hsafe) as Hlen.
  destruct (pickWeighted _ _ _ g) as [picked g']. cbn [fst] in *. cbn.
  rewrite length_map, Hclamp in Hlen.
  repeat split; try done.
  - lia.
  - apply (submseteq_Forall _ _ _ Hsub), mapRow_Forall_wf.
  - intros Hnd. apply (submseteq_NoDup_fmap _ _ Hsub). by rewrite mapRow_ids.
Qed.

Lemma run_off_screen (evs : list Event) (s : State) (g : Rng) :
  current s = None -> loading s = false -> run evs s g = (s, g).
Proof.
  intros Hq Hl. induction evs as [|ev evs IH]; [done|].
  cbn [run]. unfold mbind, Rand_bind. by rewrite dispatch_off_screen.
Qed.

(** X8. A load that fails empties the question list, records the
    message and resets nothing else: index, choice, counts, missed ids
    and session token stay, and no random number is drawn.  From then on,
    as after a load that returned no row, no control is on the page: no
    sequence of events changes the state. *)
Theorem loadQuestions_dead_end (selectedMode : Mode) (newSess : string)
    (s : State) (g : Rng) :
  (forall message,
      let s' := (loadQuestions selectedMode (inl message) newSess s g).1 in
      questions s' = [] /\ error s' = Some message /\ loading s' = false
      /\ index s' = index s /\ selectedIndex s' = selectedIndex s
      /\ submitted s' = submitted s /\ correctCount s' = correctCount s
      /\ answeredCount s' = answeredCount s /\ incorrectIds s' = incorrectIds s
      /\ showReview s' = showReview s /\ sessionId s' = sessionId s
      /\ (loadQuestions selectedMode (inl message) newSess s g).2 = g
      /\ forall evs g', run evs s' g' = (s', g'))
  /\ (let s' := (loadQuestions selectedMode (inr []) newSess s g).1 in
      questions s' = [] /\ forall evs g', run evs s' g' = (s', g')).
Proof.
  split.
  - intros message. cbv zeta. cbn. repeat split.
    intros evs g'. apply run_off_screen; [|done].
    unfold current, at_index. cbn. by destruct (index s <? 0).
  - cbv zeta. unfold loadQuestions, mbind, Rand_bind, mret, Rand_ret.
    cbn [quizSize setError setLoading map].
    destruct (quizSize_safe (quizSize s)) as [Hsafe _].
    pose proof (pickWeighted_length_nat []
                  (clampInt (QuizSize_value (quizSize s)) 1 500) selectedMode g Hsafe) as Hlen.
    destruct (pickWeighted _ _ _ g) as [picked g']. cbn [fst length] in Hlen.
    assert (picked = []) as -> by (apply nil_length_inv; lia).
    cbn. split; [done|]. intros evs g''. by apply run_off_screen.
Qed.

(** ** Facts every event keeps *)

Lemma findIndex_from_found {T} (p : T -> bool) (a : list T) (i : Z) (x : T) :
  x ∈ a -> p x = true ->
  exists k y, findIndex_from p a i = i + Z.of_nat k /\ a !! k = Some y /\ p y = true
              /\ forall k' y', (k' < k)%nat -> a !! k' = Some y' -> p y' = false.
Proof.
  revert i. induction a as [|z a IH]; intros i Hx Hp; [by apply elem_of_nil in Hx|].
  cbn [findIndex_from]. destruct (p z) eqn:Hz.
  - exists 0%nat, z. split_and!; [lia | done | done | intros; lia].
  - apply elem_of_cons in Hx as [-> | Hx]; [congruence|].
    destruct (IH (i + 1) Hx Hp) as (k & y & Hk & Hy & Hpy & Hmin).
    exists (S k), y. split_and!; [lia | done | done |].
    intros [|k'] y' Hk' Hy'; [by injection Hy' as <-|]. apply (Hmin k'); [lia | done].
Qed.

Lemma findIndex_from_none {T} (p : T -> bool) (a : list T) (i : Z) :
  (forall x, x ∈ a -> p x = false) -> findIndex_from p a i = -1.
Proof.
  revert i. induction a as [|z a IH]; intros i Hall; [done|].
  cbn [findIndex_from]. rewrite (Hall z) by apply list_elem_of_here.
  apply IH. intros x Hx. apply Hall. by apply list_elem_of_further.
Qed.

Lemma page_inv_fresh (qs : list Question.t) (s : State) :
  Forall Question_wf qs -> Z.of_nat (length qs) <= QuizSize_value (quizSize s) ->
  questions s = qs -> index s = 0 -> selectedIndex s = None -> submitted s = false ->
  correctCount s = 0 -> answeredCount s = 0 -> incorrectIds s = [] -> page_inv s.
Proof.
  intros Hwf Hlen Eq Ei Es Eb Ec Ea Em. unfold page_inv, total.
  rewrite Eq, Ei, Es, Eb, Ec, Ea, Em. cbn [length].
  split_and!; try done; try lia.
  intros Hne. destruct qs; [done|]. cbn [length]. lia.
Qed.

Lemma page_inv_progress (s s' : State) :
  questions s' = questions s -> quizSize s' = quizSize s ->
  correctCount s' = correctCount s -> answeredCount s' = answeredCount s ->
  incorrectIds s' = incorrectIds s ->
  (submitted s' = true -> selectedIndex s' <> None) ->
  (forall sel, selectedIndex s' = Some sel -> 0 <= sel < 4) ->
  0 <= index s' -> (questions s <> [] -> index s' < total s) ->
  page_inv s -> page_inv s'.
Proof.
  intros Eq Ez Ec Ea Em Hb Hc Hi0 Hi1 (W & _ & _ & D0 & D1 & E & _ & _).
  unfold page_inv, total in *. rewrite Eq, Ez, Ec, Ea, Em. by split_and!.
Qed.

Lemma submit_page_inv (s : State) : page_inv s -> page_inv (submit s).
Proof.
  intros Hinv. pose proof Hinv as (W & B & C & D0 & D1 & E & F0 & F1).
  unfold submit, submit_end, submit_body.
  destruct (current s) as [q|]; [|exact Hinv].
  destruct (selectedIndex s) as [sel|] eqn:Hsel; [|exact Hinv].
  destruct (submitted s) eqn:Hsub; [exact Hinv|].
  unfold page_inv, total in *.
  destruct (decide (index s = Z.of_nat (length (questions s)) - 1));
    destruct (bool_decide (indexToChoice sel = Question.correctChoice q));
    cbn; rewrite ?Hsel; split_and!; try done; try lia.
  all: destruct (includes (incorrectIds s) (Question.id q));
    rewrite ?length_app; cbn [length]; lia.
Qed.

Lemma jumpToMissed_index (m : Question.t) (s : State) :
  m ∈ questions s ->
  0 <= index (jumpToMissed m s) < total s
  /\ exists q, current (jumpToMissed m s) = Some q /\ Question.id q = Question.id m
               /\ forall k q', (Z.of_nat k < index (jumpToMissed m s)) ->
                               questions s !! k = Some q' -> Question.id q' <> Question.id m.
Proof.
  intros Hm. unfold jumpToMissed, findIndex, current, at_index, total. cbn.
  destruct (findIndex_from_found
              (fun qq => bool_decide (Question.id qq = Question.id m)) (questions s) 0 m Hm)
    as (k & y & -> & Hy & Hpy & Hmin); [by apply bool_decide_eq_true|].
  apply bool_decide_eq_true in Hpy. pose proof (lookup_lt_Some _ _ _ Hy) as Hlt.
  split; [lia|]. exists y.
  destruct (Z.ltb_spec (0 + Z.of_nat k) 0); [lia|].
  replace (Z.to_nat (0 + Z.of_nat k)) with k by lia.
  split; [done|]. split; [done|].
  intros k' q' Hk' Hq' Heq.
  assert (Hf := Hmin k' q' ltac:(lia) Hq'). apply bool_decide_eq_false in Hf. done.
Qed.

Lemma missed_elem_of (s : State) (m : Question.t) :
  m ∈ missed s <-> m ∈ questions s /\ Question.id m ∈ incorrectIds s.
Proof.
  unfold missed. rewrite list_elem_of_filter, includes_spec. tauto.
Qed.

Lemma dispatch_page_inv (ev : Event) (s : State) (g : Rng) :
  page_inv s -> page_inv (dispatch ev s g).1.
Proof.
  intros Hinv. pose proof Hinv as (W & B & C & D0 & D1 & E & F0 & F1).
  assert (Hload : forall selectedMode res newSess s0,
             (submitted s0 = true -> selectedIndex s0 <> None) ->
             (forall sel, selectedIndex s0 = Some sel -> 0 <= sel < 4) ->
             0 <= correctCount s0 ->
             correctCount s0 + Z.of_nat (length (incorrectIds s0)) <= answeredCount s0 ->
             0 <= index s0 ->
             page_inv (loadQuestions selectedMode res newSess s0 g).1).
  { intros selectedMode res newSess s0 B0 C0 D00 D10 F00. destruct res as [message|rows].
    - cbn. unfold page_inv, total. cbn. split_and!; try done.
      by destruct (quizSize s0).
    - unfold loadQuestions, mbind, Rand_bind, mret, Rand_ret.
      cbn [quizSize setError setLoading].
      destruct (quizSize_safe (quizSize s0)) as [Hsafe Hclamp].
      pose proof (pickWeighted_submseteq (map mapRow rows)
                    (clampInt (QuizSize_value (quizSize s0)) 1 500) selectedMode g) as Hsub.
      pose proof (pickWeighted_length_nat (map mapRow rows)
                    (clampInt (QuizSize_value (quizSize s0)) 1 500) selectedMode g Hsafe)
        as Hlen.
      destruct (pickWeighted _ _ _ g) as [picked g']. cbn [fst] in *.
      apply (page_inv_fresh picked); try done.
      + apply (submseteq_Forall _ _ _ Hsub), mapRow_Forall_wf.
      + cbn. lia. }
  unfold dispatch.
  destruct (screen s) eqn:Hscr, ev; try exact Hinv; try (by apply Hload).
  - (* restart *)
    by apply (page_inv_fresh (questions s)).
  - (* retry *)
    destruct (bool_decide _); [exact Hinv|].
    unfold retryIncorrectOnly, mbind, Rand_bind, mret, Rand_ret.
    set (F := filter _ (questions s)).
    assert (HF : F ⊆+ questions s) by apply sublist_submseteq, sublist_filter.
    run_shuffle Sh g' PS. cbn [fst].
    apply (page_inv_fresh Sh); try done.
    + rewrite PS. by apply (submseteq_Forall _ _ _ HF).
    + cbn. rewrite (Permutation_length PS). apply submseteq_length in HF. lia.
  - (* jump *)
    destruct (missed s !! i) as [m|] eqn:Hm; [|exact Hinv]. cbn [fst mret Rand_ret].
    assert (Hin : m ∈ questions s).
    { apply (proj1 (missed_elem_of s m)). apply list_elem_of_lookup. eauto. }
    destruct (jumpToMissed_index m s Hin) as [Hidx _].
    apply (page_inv_progress s); try done; lia.
  - (* choice *)
    destruct (current s) as [q|] eqn:Hq; [|exact Hinv].
    destruct (bool_decide_reflect (idx < length (Question.choices q))%nat) as [Hlt|];
      [|exact Hinv].
    destruct (submitted s) eqn:Hsub; [exact Hinv|]. cbn [negb andb fst mret Rand_ret].
    unfold selectChoice. rewrite Hsub.
    assert (Hwf : Question_wf q).
    { rewrite Forall_forall in W. apply W. by apply at_index_elem_of in Hq. }
    destruct Hwf as [H4 _].
    apply (page_inv_progress s); try done.
    cbn. intros sel [= <-]. lia.
  - (* submit *)
    destruct (_ || _); [exact Hinv|]. by apply submit_page_inv.
  - (* next *)
    destruct (negb (submitted s)) eqn:Hn; [exact Hinv|]. cbn [fst mret Rand_ret].
    unfold next. rewrite Hn.
    destruct (Z.ltb_spec (index s) (total s - 1)).
    + apply (page_inv_progress s); try done; cbn; lia.
    + by apply (page_inv_progress s).
  - (* reshuffle *)
    unfold reshuffle, mbind, Rand_bind, mret, Rand_ret.
    run_shuffle Sh g' PS. cbn [fst].
    apply (page_inv_fresh Sh); try done.
    + by rewrite PS.
    + cbn. rewrite (Permutation_length PS). done.
  - case_decide; [exact Hinv|]. by apply Hload.
  - case_decide; [exact Hinv|]. by apply Hload.
  - case_decide; [exact Hinv|]. by apply Hload.
Qed.

Lemma reachable_page_inv (s : State) : reachable s -> page_inv s.
Proof.
  induction 1 as [sess | s ev g _ IH _].
  - by apply (page_inv_fresh []).
  - by apply dispatch_page_inv.
Qed.

Lemma sampleLoaded_reachable : reachable sampleLoaded.
Proof.
  apply reachable_step; [apply reachable_init|].
  cbn. apply NoDup_singleton.
Defined.

Lemma sampleLoaded_nonempty : questions sampleLoaded <> [].
Proof. vm_compute. discriminate. Qed.

Lemma sampleMissed_reachable : reachable sampleMissed.
Proof.
  exact (reachable_step _ ClickSubmit sampleRng
           (reachable_step _ (ClickChoice 1) sampleRng sampleLoaded_reachable I) I).
Defined.

Lemma sampleMissed_missed : mapRow (sampleRow "r1" easy A) ∈ missed sampleMissed.
Proof. vm_compute. apply list_elem_of_here. Qed.

Lemma sampleMissed_entry :
  renderMissed 0 (mapRow (sampleRow "r1" easy A)) ∈ rv_missed (renderReview sampleMissed).
Proof. vm_compute. apply list_elem_of_here. Qed.

(** ** Scores and sizes of reachable sessions *)

(** X9. In every reachable state the correct count is not negative, the
    correct answers and the recorded misses together are at most the
    attempts, so the score never shows more correct than attempted, and a
    submitted question always has a choice selected. *)
Theorem reachable_score_bounds (s : State) :
  reachable s ->
  0 <= correctCount s <= answeredCount s
  /\ correctCount s + Z.of_nat (length (incorrectIds s)) <= answeredCount s
  /\ (submitted s = true -> exists sel, selectedIndex s = Some sel /\ 0 <= sel < 4).
Proof.
  intros (W & B & C & D0 & D1 & E & F0 & F1)%reachable_page_inv.
  split; [lia|]. split; [done|].
  intros Hsub. destruct (selectedIndex s) as [sel|] eqn:Hsel; [|by destruct (B Hsub)].
  exists sel. split; [done|]. by apply C.
Qed.

Lemma reachable_score_bounds_witness :
  reachable sampleLoaded
  /\ 0 <= correctCount sampleLoaded <= answeredCount sampleLoaded.
Proof.
  split; [exact sampleLoaded_reachable|].
  exact (proj1 (reachable_score_bounds sampleLoaded sampleLoaded_reachable)).
Defined.

(** X10. In every reachable state the session holds at most [quizSize]
    questions, so never more than 50, and each of them has four choices
    and a correct index that matches its correct letter. *)
Theorem reachable_session_size (s : State) :
  reachable s ->
  Z.of_nat (length (questions s)) <= QuizSize_value (quizSize s) <= 50
  /\ Forall Question_wf (questions s).
Proof.
  intros (W & B & C & D0 & D1 & E & F0 & F1)%reachable_page_inv.
  split; [|done]. split; [done|]. by destruct (quizSize s).
Qed.

Lemma reachable_session_size_witness :
  reachable sampleLoaded
  /\ Z.of_nat (length (questions sampleLoaded)) <= QuizSize_value (quizSize sampleLoaded) <= 50.
Proof.
  split; [exact sampleLoaded_reachable|].
  exact (proj1 (reachable_session_size sampleLoaded sampleLoaded_reachable)).
Defined.

(** X11. In a reachable state the verdict the page computes by index
    ([isCorrect]) agrees with the comparison of letters that [submit]
    scores by: after a submit, the verdict is "correct" exactly when the
    correct count went up, and in balanced mode the panel shows that
    verdict with the question's explanation. *)
Theorem verdict_matches_score (s : State) (q : Question.t) (sel : Z) :
  reachable s -> current s = Some q -> selectedIndex s = Some sel -> submitted s = false ->
  (isCorrect (submit s) = true <-> correctCount (submit s) = correctCount s + 1)
  /\ (isCorrect (submit s) = false <-> correctCount (submit s) = correctCount s)
  /\ (mode s = balanced ->
      renderFeedback (submit s) q = Explanation (isCorrect (submit s)) (Question.explanation q)).
Proof.
  intros Hr Hq Hsel Hsub.
  pose proof (reachable_page_inv s Hr) as (W & B & C & D0 & D1 & E & F0 & F1).
  assert (Hwf : Question_wf q).
  { rewrite Forall_forall in W. apply W. by apply at_index_elem_of in Hq. }
  destruct Hwf as [_ Hci]. specialize (C sel Hsel).
  assert (Hagree : bool_decide (sel = Question.correctIndex q)
                   = bool_decide (indexToChoice sel = Question.correctChoice q)).
  { rewrite Hci. apply bool_decide_ext. split; [intros ->; by destruct (Question.correctChoice q)|].
    intros Heq. rewrite <- Heq.
    assert (sel = 0 \/ sel = 1 \/ sel = 2 \/ sel = 3) as [-> | [-> | [-> | ->]]] by lia; done. }
  assert (Hf : questions (submit s) = questions s /\ index (submit s) = index s
               /\ selectedIndex (submit s) = Some sel /\ submitted (submit s) = true
               /\ mode (submit s) = mode s
               /\ correctCount (submit s)
                  = correctCount s
                    + if bool_decide (indexToChoice sel = Question.correctChoice q)
                      then 1 else 0).
  { rewrite (submit_fires s q sel Hq Hsel Hsub). unfold submit_end, submit_body.
    destruct (decide (index s = total s - 1));
      destruct (bool_decide (indexToChoice sel = Question.correctChoice q));
      cbn; split_and!; try done; lia. }
  destruct Hf as (Eqs & Eidx & Esel & Esub & Emode & Ecount).
  assert (Hv : isCorrect (submit s)
               = bool_decide (indexToChoice sel = Question.correctChoice q)).
  { unfold isCorrect, current. rewrite Eqs, Eidx. fold (current s).
    by rewrite Hq, Esel, Hagree. }
  rewrite Hv, Ecount.
  split; [|split].
  - destruct (bool_decide (indexToChoice sel = Question.correctChoice q)); split; intros; try done; lia.
  - destruct (bool_decide (indexToChoice sel = Question.correctChoice q)); split; intros; try done; lia.
  - intros Hm. unfold renderFeedback, isExamLock. rewrite Esub, Emode, Hm, Hv. done.
Qed.

Lemma verdict_matches_score_witness :
  reachable sampleLoaded
  /\ current sampleLoaded = Some (mapRow (sampleRow "r1" easy A))
  /\ (isCorrect (submit (setSelectedIndex (Some 1) sampleLoaded)) = false
      <-> correctCount (submit (setSelectedIndex (Some 1) sampleLoaded))
          = correctCount (setSelectedIndex (Some 1) sampleLoaded)).
Proof.
  split; [exact sampleLoaded_reachable|]. split; [reflexivity|].
  assert (Hr : reachable (setSelectedIndex (Some 1) sampleLoaded)).
  { exact (reachable_step sampleLoaded (ClickChoice 1) sampleRng sampleLoaded_reachable I). }
  exact (proj1 (proj2 (verdict_matches_score (setSelectedIndex (Some 1) sampleLoaded)
                         (mapRow (sampleRow "r1" easy A)) 1 Hr
                         eq_refl eq_refl eq_refl))).
Defined.

(** X12. A reachable page that is not loading and has questions always
    has a current question: the index stays inside the question list, so
    the "No questions found" screen only appears for an empty list. *)
Theorem reachable_has_current (s : State) :
  reachable s -> questions s <> [] ->
  0 <= index s < total s
  /\ (exists q, current s = Some q /\ q ∈ questions s)
  /\ (loading s = false -> screen s <> EmptyScreen).
Proof.
  intros (W & B & C & D0 & D1 & E & F0 & F1)%reachable_page_inv Hne.
  specialize (F1 Hne). split; [lia|].
  assert (Hq : exists q, current s = Some q).
  { unfold current, at_index, total in *. destruct (Z.ltb_spec (index s) 0); [lia|].
    apply lookup_lt_is_Some_2. lia. }
  destruct Hq as [q Hq]. split.
  - exists q. split; [done|]. by apply at_index_elem_of in Hq.
  - intros Hl. unfold screen. rewrite Hl, Hq.
    destruct (truthy (error s)); [done|]. by destruct (showReview s).
Qed.

Lemma reachable_has_current_witness :
  reachable sampleLoaded /\ questions sampleLoaded <> []
  /\ 0 <= index sampleLoaded < total sampleLoaded.
Proof.
  split; [exact sampleLoaded_reachable|]. split; [exact sampleLoaded_nonempty|].
  exact (proj1 (reachable_has_current sampleLoaded sampleLoaded_reachable
                  sampleLoaded_nonempty)).
Defined.

(** ** The review list *)

(** X13. On a reachable page with questions, the review lists exactly one
    question per recorded id: the ids of the missed questions are the
    recorded ids up to order, the "Missed" count is their number, and the
    Retry button is disabled exactly when the list is empty. *)
Theorem review_list_matches_ids (s : State) :
  reachable s -> questions s <> [] ->
  Question.id <$> missed s ≡ₚ incorrectIds s
  /\ length (rv_missed (renderReview s)) = length (incorrectIds s)
  /\ (rv_retryDisabled (renderReview s) = true <-> rv_missed (renderReview s) = []).
Proof.
  intros Hr Hne. destruct (reachable_session_inv s Hr) as (I1 & I2 & I3).
  specialize (I3 Hne).
  assert (Hp : Question.id <$> missed s ≡ₚ incorrectIds s).
  { apply NoDup_Permutation; [|done|].
    - apply (submseteq_NoDup_fmap (missed s) (questions s)); [|done].
      apply sublist_submseteq, sublist_filter.
    - intros x. rewrite list_elem_of_fmap. split.
      + intros (q & -> & Hq). by apply missed_elem_of in Hq as [_ ?].
      + intros Hx. pose proof (I3 x Hx) as Hx'.
        apply list_elem_of_fmap in Hx' as (q & -> & Hq).
        exists q. split; [done|]. by apply missed_elem_of. }
  assert (Hlen : length (rv_missed (renderReview s)) = length (incorrectIds s)).
  { cbn. by rewrite length_imap, <- (Permutation_length Hp), length_fmap. }
  split; [done|]. split; [done|].
  cbn [rv_retryDisabled renderReview]. rewrite bool_decide_eq_true, <- Hlen.
  split; [apply nil_length_inv | by intros ->].
Qed.

Lemma review_list_matches_ids_witness :
  reachable sampleLoaded /\ questions sampleLoaded <> []
  /\ length (rv_missed (renderReview sampleLoaded)) = length (incorrectIds sampleLoaded).
Proof.
  split; [exact sampleLoaded_reachable|]. split; [exact sampleLoaded_nonempty|].
  exact (proj1 (proj2 (review_list_matches_ids sampleLoaded sampleLoaded_reachable
                         sampleLoaded_nonempty))).
Defined.

(** X14. On a reachable page every entry of the review shows a defined
    choice text (never [undefined]) next to the letter of the question's
    correct choice. *)
Theorem review_entries_defined (s : State) (v : MissedView) :
  reachable s -> v ∈ rv_missed (renderReview s) ->
  exists q text, q ∈ questions s /\ Question.id q ∈ incorrectIds s
                 /\ mv_key v = Question.id q
                 /\ mv_correctLetter v = Question.correctChoice q
                 /\ mv_correctText v = Some text
                 /\ Question.choices q !! Z.to_nat (correctChoiceToIndex (Question.correctChoice q))
                    = Some text
                 /\ mv_explanation v = Question.explanation q.
Proof.
  intros (W & _)%reachable_page_inv Hv.
  cbn in Hv. apply list_elem_of_lookup in Hv as [i Hi].
  rewrite list_lookup_imap in Hi.
  destruct (missed s !! i) as [q|] eqn:Hq; [|done]. injection Hi as <-.
  assert (Hin : q ∈ missed s) by (apply list_elem_of_lookup; eauto).
  apply missed_elem_of in Hin as [Hin Hid].
  rewrite Forall_forall in W. destruct (W q Hin) as [H4 Hci].
  assert (Hrange : 0 <= correctChoiceToIndex (Question.correctChoice q) <= 3)
    by (destruct (Question.correctChoice q); cbn; lia).
  destruct (lookup_lt_is_Some_2 (Question.choices q)
              (Z.to_nat (correctChoiceToIndex (Question.correctChoice q)))) as [text Ht]; [lia|].
  exists q, text. cbn. rewrite Hci. split_and!; try done.
  - by destruct (Question.correctChoice q).
  - unfold at_index. destruct (Z.ltb_spec (correctChoiceToIndex (Question.correctChoice q)) 0);
      [lia | done].
Qed.

Lemma review_entries_defined_witness :
  reachable sampleMissed
  /\ renderMissed 0 (mapRow (sampleRow "r1" easy A)) ∈ rv_missed (renderReview sampleMissed)
  /\ exists q text,
       q ∈ questions sampleMissed /\ Question.id q ∈ incorrectIds sampleMissed
       /\ mv_key (renderMissed 0 (mapRow (sampleRow "r1" easy A))) = Question.id q
       /\ mv_correctLetter (renderMissed 0 (mapRow (sampleRow "r1" easy A)))
          = Question.correctChoice q
       /\ mv_correctText (renderMissed 0 (mapRow (sampleRow "r1" easy A))) = Some text
       /\ Question.choices q !! Z.to_nat (correctChoiceToIndex (Question.correctChoice q))
          = Some text
       /\ mv_explanation (renderMissed 0 (mapRow (sampleRow "r1" easy A)))
          = Question.explanation q.
Proof.
  split; [exact sampleMissed_reachable|]. split; [exact sampleMissed_entry|].
  exact (review_entries_defined sampleMissed _ sampleMissed_reachable sampleMissed_entry).
Defined.

(** X15. Clicking an entry of the review of a reachable page leaves the
    review and makes that very question the current one, unanswered, and
    changes neither the counts nor the recorded ids nor the session. *)
Theorem jumpToMissed_opens_question (s : State) (m : Question.t) :
  reachable s -> m ∈ missed s ->
  let s' := jumpToMissed m s in
  current s' = Some m
  /\ showReview s' = false /\ selectedIndex s' = None /\ submitted s' = false
  /\ correctCount s' = correctCount s /\ answeredCount s' = answeredCount s
  /\ incorrectIds s' = incorrectIds s /\ questions s' = questions s
  /\ sessionId s' = sessionId s.
Proof.
  intros Hr Hm. cbv zeta. apply missed_elem_of in Hm as [Hin _].
  destruct (reachable_session_inv s Hr) as (I1 & _).
  destruct (jumpToMissed_index m s Hin) as (_ & q & Hq & Hid & _).
  split_and!; try done.
  rewrite Hq. f_equal.
  assert (Hqin : q ∈ questions s).
  { apply at_index_elem_of in Hq. exact Hq. }
  apply list_elem_of_lookup in Hqin as [i Hi]. apply list_elem_of_lookup in Hin as [j Hj].
  assert (i = j).
  { apply (NoDup_lookup _ i j (Question.id q) I1);
      rewrite list_lookup_fmap; [by rewrite Hi | by rewrite Hj, Hid]. }
  subst j. congruence.
Qed.

Lemma jumpToMissed_opens_question_witness :
  reachable sampleMissed
  /\ mapRow (sampleRow "r1" easy A) ∈ missed sampleMissed
  /\ current (jumpToMissed (mapRow (sampleRow "r1" easy A)) sampleMissed)
     = Some (mapRow (sampleRow "r1" easy A)).
Proof.
  split; [exact sampleMissed_reachable|]. split; [exact sampleMissed_missed|].
  exact (proj1 (jumpToMissed_opens_question sampleMissed _ sampleMissed_reachable
                  sampleMissed_missed)).
Defined.

(** ** Events inside a session *)

Lemma submit_frame (s : State) :
  questions (submit s) = questions s /\ sessionId (submit s) = sessionId s
  /\ mode (submit s) = mode s /\ quizSize (submit s) = quizSize s
  /\ domain (submit s) = domain s /\ index (submit s) = index s
  /\ selectedIndex (submit s) = selectedIndex s
  /\ loading (submit s) = loading s /\ error (submit s) = error s
  /\ answeredCount s <= answeredCount (submit s) <= answeredCount s + 1
  /\ correctCount s <= correctCount (submit s) <= correctCount s + 1
  /\ incorrectIds s `prefix_of` incorrectIds (submit s).
Proof.
  unfold submit.
  destruct (current s) as [q|]; [|split_and!; try done; lia].
  destruct (selectedIndex s) as [sel|] eqn:Hsel; [|split_and!; try done; lia].
  destruct (submitted s); [split_and!; try done; lia|].
  unfold submit_end, submit_body.
  destruct (decide (index s = total s - 1));
    destruct (bool_decide (indexToChoice sel = Question.correctChoice q));
    cbn; split_and!; try done; try lia;
    destruct (includes (incorrectIds s) (Question.id q)); try done;
    by apply prefix_app_r.
Qed.

(** X16. Choosing, submitting, moving on, going back to the quiz and
    opening a missed question never change the question list, the session
    token, the mode, the size or the domain, and draw no random number;
    each of them raises the answered and the correct count by at most one
    and only ever appends to the recorded misses. *)
Theorem session_events_preserve (ev : Event) (s : State) (g : Rng) :
  keepsSession ev = true ->
  let s' := (dispatch ev s g).1 in
  (dispatch ev s g).2 = g
  /\ questions s' = questions s /\ sessionId s' = sessionId s
  /\ mode s' = mode s /\ quizSize s' = quizSize s /\ domain s' = domain s
  /\ answeredCount s <= answeredCount s' <= answeredCount s + 1
  /\ correctCount s <= correctCount s' <= correctCount s + 1
  /\ incorrectIds s `prefix_of` incorrectIds s'.
Proof.
  intros Hev. cbv zeta.
  assert (Hid : forall t : State,
             t = s \/ (questions t = questions s /\ sessionId t = sessionId s
                       /\ mode t = mode s /\ quizSize t = quizSize s /\ domain t = domain s
                       /\ answeredCount t = answeredCount s /\ correctCount t = correctCount s
                       /\ incorrectIds t = incorrectIds s) ->
             questions t = questions s /\ sessionId t = sessionId s
             /\ mode t = mode s /\ quizSize t = quizSize s /\ domain t = domain s
             /\ answeredCount s <= answeredCount t <= answeredCount s + 1
             /\ correctCount s <= correctCount t <= correctCount s + 1
             /\ incorrectIds s `prefix_of` incorrectIds t).
  { intros t [-> | (-> & -> & -> & -> & -> & -> & -> & ->)]; split_and!; try done; lia. }
  unfold dispatch.
  destruct (screen s), ev as [| idx | | | | | | | | | | | i]; try discriminate Hev;
    cbn [mret Rand_ret fst snd];
    try (split; [done|]; apply Hid; first [by left | by right]).
  - destruct (missed s !! i); (split; [done|]); apply Hid; [right|left]; done.
  - destruct (current s) as [q|]; [|split; [done|]; apply Hid; by left].
    destruct (bool_decide (idx < length (Question.choices q))%nat && negb (submitted s));
      (split; [done|]); apply Hid; [|by left].
    unfold selectChoice. destruct (submitted s); [by left | by right].
  - destruct (bool_decide (selectedIndex s = None) || submitted s);
      (split; [done|]); [apply Hid; by left|].
    destruct (submit_frame s) as (? & ? & ? & ? & ? & _ & _ & _ & _ & ? & ? & ?).
    cbn [mret Rand_ret fst snd]. split_and!; try done; lia.
  - destruct (negb (submitted s)); (split; [done|]); apply Hid; [by left|].
    unfold next. destruct (negb (submitted s)); [by left|].
    destruct (index s <? total s - 1); by right.
Qed.

Lemma session_events_preserve_witness :
  keepsSession ClickSubmit = true
  /\ questions (dispatch ClickSubmit sampleLoaded sampleRng).1 = questions sampleLoaded.
Proof.
  split; [reflexivity|].
  exact (proj1 (proj2 (session_events_preserve ClickSubmit sampleLoaded sampleRng eq_refl))).
Defined.

Lemma screen_QuizScreen (s : State) (q : Question.t) :
  loading s = false -> truthy (error s) = false -> current s = Some q ->
  showReview s = false -> screen s = QuizScreen.
Proof. intros Hl He Hq Hr. unfold screen. by rewrite Hl, He, Hq, Hr. Qed.

Lemma screen_ReviewScreen (s : State) (q : Question.t) :
  loading s = false -> truthy (error s) = false -> current s = Some q ->
  showReview s = true -> screen s = ReviewScreen.
Proof. intros Hl He Hq Hr. unfold screen. by rewrite Hl, He, Hq, Hr. Qed.

Lemma screen_ReviewScreen_inv (s : State) :
  screen s = ReviewScreen ->
  loading s = false /\ truthy (error s) = false /\ showReview s = true
  /\ exists q, current s = Some q.
Proof.
  unfold screen. destruct (loading s); [done|]. destruct (truthy (error s)); [done|].
  destruct (current s) as [q|]; [|done]. destruct (showReview s); [|done]. eauto.
Qed.

Lemma answer_step (s : State) (q : Question.t) (c : nat) (g : Rng) :
  loading s = false -> truthy (error s) = false -> showReview s = false ->
  submitted s = false -> current s = Some q -> (c < length (Question.choices q))%nat ->
  run (answerWith c) s g = (answered q c s, g).
Proof.
  intros Hl He Hr Hs Hq Hc. unfold answerWith. cbn [run]. unfold mbind, Rand_bind.
  unfold dispatch at 1. rewrite (screen_QuizScreen s q), Hq, Hs by done.
  rewrite bool_decide_eq_true_2 by done. cbn [andb negb mret Rand_ret].
  unfold selectChoice. rewrite Hs.
  set (s1 := setSelectedIndex (Some (Z.of_nat c)) s).
  assert (Hq1 : current s1 = Some q) by done.
  unfold dispatch at 1. rewrite (screen_QuizScreen s1 q) by done.
  cbn [selectedIndex s1 setSelectedIndex submitted]. rewrite Hs.
  rewrite bool_decide_eq_false_2 by done. cbn [orb mret Rand_ret].
  rewrite (submit_fires s1 q (Z.of_nat c)) by done.
  change (index s1) with (index s). change (total s1) with (total s).
  unfold answered. fold s1.
  set (s2 := submit_end (index s) (total s) (submit_body q (Z.of_nat c) s1)).
  assert (H2 : loading s2 = false /\ error s2 = error s /\ questions s2 = questions s
               /\ index s2 = index s /\ submitted s2 = true
               /\ showReview s2 = bool_decide (index s = total s - 1)).
  { unfold s2, submit_end, submit_body.
    destruct (decide (index s = total s - 1));
      destruct (bool_decide (indexToChoice (Z.of_nat c) = Question.correctChoice q));
      cbn; rewrite ?Hl, ?Hr; split_and!; try done;
      by rewrite ?bool_decide_eq_true_2, ?bool_decide_eq_false_2 by done. }
  destruct H2 as (Hl2 & He2 & Hqs2 & Hi2 & Hs2 & Hr2).
  assert (Hq2 : current s2 = Some q).
  { unfold current. rewrite Hqs2, Hi2. exact Hq. }
  destruct (decide (index s = total s - 1)) as [Hlast|Hlast].
  - rewrite bool_decide_eq_true_2 in Hr2 by done.
    unfold dispatch. rewrite (screen_ReviewScreen s2 q) by (try done; by rewrite He2). done.
  - rewrite bool_decide_eq_false_2 in Hr2 by done.
    unfold dispatch. rewrite (screen_QuizScreen s2 q) by (try done; by rewrite He2).
    rewrite Hs2. cbn [negb mret Rand_ret]. unfold next. rewrite Hs2. cbn [negb].
    unfold total in *. rewrite Hqs2, Hi2.
    assert (Hlt : index s < Z.of_nat (length (questions s))).
    { unfold current, at_index in Hq. destruct (index s <? 0) eqn:E; [done|].
      apply lookup_lt_Some in Hq. lia. }
    destruct (Z.ltb_spec (index s) (Z.of_nat (length (questions s)) - 1)); [done|lia].
Qed.


Lemma answered_fields (q : Question.t) (c : nat) (s : State) :
  let s' := answered q c s in
  questions s' = questions s /\ sessionId s' = sessionId s /\ mode s' = mode s
  /\ quizSize s' = quizSize s /\ domain s' = domain s
  /\ loading s' = loading s /\ error s' = error s
  /\ answeredCount s' = answeredCount s + 1
  /\ correctCount s' = correctCount s + (if answersCorrectly q c then 1 else 0)
  /\ incorrectIds s'
     = (if answersCorrectly q c then incorrectIds s
        else if includes (incorrectIds s) (Question.id q) then incorrectIds s
             else incorrectIds s ++ [Question.id q])
  /\ (index s = total s - 1 ->
      index s' = index s /\ showReview s' = true /\ submitted s' = true)
  /\ (index s <> total s - 1 ->
      index s' = index s + 1 /\ showReview s' = showReview s /\ submitted s' = false
      /\ selectedIndex s' = None).
Proof.
  cbv zeta. unfold answered, submit_end, submit_body, answersCorrectly.
  destruct (decide (index s = total s - 1));
    destruct (bool_decide (indexToChoice (Z.of_nat c) = Question.correctChoice q));
    cbn; split_and!; try done; try lia.
Qed.

Lemma run_app (evs1 evs2 : list Event) (s : State) (g : Rng) :
  run (evs1 ++ evs2) s g = run evs2 (run evs1 s g).1 (run evs1 s g).2.
Proof.
  revert s g. induction evs1 as [|ev evs1 IH]; intros s g; [done|].
  cbn [run app]. unfold mbind, Rand_bind. destruct (dispatch ev s g) as [s1 g1]. apply IH.
Qed.

Lemma reachable_run (evs : list Event) (s : State) (g : Rng) :
  reachable s -> Forall event_ok evs -> reachable (run evs s g).1.
Proof.
  revert s g. induction evs as [|ev evs IH]; intros s g Hr Hok; [done|].
  apply Forall_cons in Hok as [Hev Hok]. cbn [run]. unfold mbind, Rand_bind.
  pose proof (reachable_step s ev g Hr Hev) as Hr1.
  destruct (dispatch ev s g) as [s1 g1]. by apply IH.
Qed.

Lemma answerWith_ok (cs : list nat) : Forall event_ok (concat (answerWith <$> cs)).
Proof. induction cs as [|c cs IH]; [done|]. cbn. by repeat constructor. Qed.

(** Answering the questions from the current one to the last. *)
Lemma pass_from (rest : list Question.t) :
  forall (cs : list nat) (s : State) (g : Rng),
    loading s = false -> truthy (error s) = false -> showReview s = false ->
    submitted s = false -> 0 <= index s ->
    drop (Z.to_nat (index s)) (questions s) = rest -> rest <> [] ->
    length cs = length rest -> Forall (fun c => (c < 4)%nat) cs ->
    Forall Question_wf (questions s) ->
    exists s',
      run (concat (answerWith <$> cs)) s g = (s', g)
      /\ questions s' = questions s /\ sessionId s' = sessionId s /\ mode s' = mode s
      /\ quizSize s' = quizSize s /\ domain s' = domain s
      /\ loading s' = false /\ error s' = error s
      /\ showReview s' = true /\ index s' = total s - 1
      /\ answeredCount s' = answeredCount s + Z.of_nat (length rest)
      /\ correctCount s' = correctCount s + scoreOf rest cs
      /\ incorrectIds s' = recordMisses (incorrectIds s) rest cs.
Proof.
  induction rest as [|q rest IH]; intros cs s g Hl He Hr Hs Hi Hdrop Hne Hlen Hcs Hwf; [done|].
  destruct cs as [|c cs]; [done|]. apply Forall_cons in Hcs as [Hc Hcs].
  injection Hlen as Hlen.
  assert (Hq : current s = Some q).
  { unfold current, at_index. destruct (Z.ltb_spec (index s) 0); [lia|].
    rewrite <- (Nat.add_0_r (Z.to_nat (index s))), <- lookup_drop, Hdrop. done. }
  assert (Hq4 : length (Question.choices q) = 4%nat).
  { rewrite Forall_forall in Hwf. apply at_index_elem_of in Hq. by destruct (Hwf q Hq). }
  assert (Htot : total s = index s + 1 + Z.of_nat (length rest)).
  { unfold total. rewrite <- (take_drop (Z.to_nat (index s)) (questions s)) at 1.
    rewrite Hdrop, length_app, length_take. cbn [length].
    assert (Z.to_nat (index s) < length (questions s))%nat.
    { unfold current, at_index in Hq. destruct (index s <? 0); [done|].
      by apply lookup_lt_Some in Hq. }
    lia. }
  assert (Hdrop' : drop (Z.to_nat (index s + 1)) (questions s) = rest).
  { replace (Z.to_nat (index s + 1)) with (Z.to_nat (index s) + 1)%nat by lia.
    by rewrite <- drop_drop, Hdrop. }
  cbn [fmap list_fmap concat]. rewrite run_app, (answer_step s q c g) by (try done; lia).
  cbn [fst snd].
  destruct (answered_fields q c s)
    as (Fq & Fsess & Fm & Fqs & Fd & Fl & Fe & Fa & Fc & Fi & Flast & Fnext).
  change (scoreOf (q :: rest) (c :: cs))
    with ((if answersCorrectly q c then 1 else 0) + scoreOf rest cs).
  cbn [recordMisses length].
  destruct rest as [|q' rest'].
  - destruct cs; [|done]. destruct Flast as (Fidx & Frev & Fsub); [cbn [length] in Htot; lia|].
    exists (answered q c s). cbn [fmap list_fmap concat run mret Rand_ret scoreOf recordMisses].
    split_and!; try done; try congruence; lia.
  - destruct Fnext as (Fidx & Frev & Fsub & Fsel); [cbn [length] in Htot; lia|].
    destruct (IH cs (answered q c s) g) as (s' & Hrun & G); try done; try congruence; try lia.
    exists s'. split; [done|].
    destruct G as (Gq & Gsess & Gm & Gqs & Gd & Gl & Ge & Gr & Gi & Ga & Gc & Gids).
    unfold total in *. rewrite Fq in Gi.
    split_and!; try congruence; lia.
Qed.

Lemma scoreOf_missedOf (qs : list Question.t) :
  forall cs, length cs = length qs ->
             scoreOf qs cs + Z.of_nat (length (missedOf qs cs)) = Z.of_nat (length qs).
Proof.
  induction qs as [|q qs IH]; intros [|c cs] Hlen; try done.
  injection Hlen as Hlen. specialize (IH cs Hlen).
  cbn [scoreOf missedOf]. unfold answersCorrectly.
  destruct (bool_decide (indexToChoice (Z.of_nat c) = Question.correctChoice q));
    cbn [length]; lia.
Qed.

Lemma missedOf_sublist (qs : list Question.t) :
  forall cs, missedOf qs cs `sublist_of` qs.
Proof.
  induction qs as [|q qs IH]; intros [|c cs]; cbn [missedOf]; try apply sublist_nil_l.
  destruct (answersCorrectly q c); [apply sublist_cons | apply sublist_skip]; apply IH.
Qed.

Lemma recordMisses_fresh (qs : list Question.t) :
  forall (cs : list nat) (prev : list string),
    NoDup (Question.id <$> qs) ->
    (forall x, x ∈ Question.id <$> qs -> x ∉ prev) ->
    recordMisses prev qs cs = prev ++ (Question.id <$> missedOf qs cs).
Proof.
  induction qs as [|q qs IH]; intros [|c cs] prev Hnd Hfresh; cbn [recordMisses missedOf];
    try by rewrite app_nil_r.
  rewrite fmap_cons in Hnd, Hfresh. apply NoDup_cons in Hnd as [Hq Hnd].
  destruct (answersCorrectly q c).
  - apply IH; [done|]. intros x Hx. apply Hfresh. by right.
  - assert (Hnot : includes prev (Question.id q) = false).
    { apply not_true_is_false. rewrite includes_spec. apply Hfresh. by left. }
    rewrite Hnot, IH; [by rewrite fmap_cons, <- app_assoc | done |].
    intros x Hx [Hin | ->%list_elem_of_singleton]%elem_of_app; [|done].
    revert Hin. apply Hfresh. by right.
Qed.

Lemma filter_ext_elem {T} (P Q : T -> Prop) `{!forall x, Decision (P x)}
    `{!forall x, Decision (Q x)} (l : list T) :
  (forall x, x ∈ l -> (P x <-> Q x)) -> filter P l = filter Q l.
Proof.
  induction l as [|x l IH]; intros Hext; [done|].
  rewrite !filter_cons. rewrite IH by (intros y Hy; apply Hext; by right).
  destruct (Hext x) as [H1 H2]; [by left|].
  destruct (decide (P x)) as [HP|HP], (decide (Q x)) as [HQ|HQ]; tauto.
Qed.

(** The review lists the questions whose ids are recorded, in quiz order. *)
Lemma missed_of_sublist (M qs : list Question.t) :
  M `sublist_of` qs -> NoDup (Question.id <$> qs) ->
  filter (fun qq => includes (Question.id <$> M) (Question.id qq) = true) qs = M.
Proof.
  induction 1 as [|x M l Hsub IH|x M l Hsub IH]; intros Hnd; [done| |];
    rewrite fmap_cons in Hnd; apply NoDup_cons in Hnd as [Hx Hnd]; rewrite filter_cons.
  - rewrite decide_True by (apply includes_spec; rewrite fmap_cons; by left).
    f_equal. etrans; [|apply (IH Hnd)]. apply filter_ext_elem. intros y Hy.
    rewrite !includes_spec, fmap_cons, elem_of_cons.
    split; [intros [Heq|?]; [|done] | by right].
    exfalso. apply Hx. rewrite <- Heq. by apply list_elem_of_fmap_2.
  - rewrite decide_False; [by apply IH|].
    rewrite includes_spec. intros Hin. apply Hx.
    apply list_elem_of_fmap in Hin as (y & -> & Hy). apply list_elem_of_fmap_2.
    by apply (elem_of_submseteq M l y Hy), sublist_submseteq.
Qed.

Lemma correctClicks_spec (qs : list Question.t) :
  Forall Question_wf qs ->
  length (correctClicks qs) = length qs
  /\ Forall (fun c => (c < 4)%nat) (correctClicks qs)
  /\ scoreOf qs (correctClicks qs) = Z.of_nat (length qs)
  /\ forall prev, recordMisses prev qs (correctClicks qs) = prev.
Proof.
  induction 1 as [|q qs [_ Hci] Hwf (IH1 & IH2 & IH3 & IH4)]; [done|].
  assert (Hc : answersCorrectly q (Z.to_nat (Question.correctIndex q)) = true).
  { unfold answersCorrectly. apply bool_decide_eq_true. rewrite Hci.
    by destruct (Question.correctChoice q). }
  unfold correctClicks in *. rewrite fmap_cons. cbn [length scoreOf recordMisses].
  fold (answersCorrectly q (Z.to_nat (Question.correctIndex q))). rewrite Hc.
  split_and!; [by rewrite IH1 | | lia | done].
  constructor; [|done]. rewrite Hci. destruct (Question.correctChoice q); cbn; lia.
Qed.

Lemma jumpToMissed_current (m : Question.t) (s : State) :
  NoDup (Question.id <$> questions s) -> m ∈ questions s ->
  current (jumpToMissed m s) = Some m.
Proof.
  intros I1 Hin. destruct (jumpToMissed_index m s Hin) as (_ & q & Hq & Hid & _).
  rewrite Hq. f_equal.
  assert (Hqin : q ∈ questions s) by (by apply at_index_elem_of in Hq).
  apply list_elem_of_lookup in Hqin as [i Hi]. apply list_elem_of_lookup in Hin as [j Hj].
  assert (i = j).
  { apply (NoDup_lookup _ i j (Question.id q) I1);
      rewrite list_lookup_fmap; [by rewrite Hi | by rewrite Hj, Hid]. }
  subst j. congruence.
Qed.

(** Opening the entry [i] of the review. *)
Lemma open_missed (s : State) (i : nat) (m : Question.t) (g : Rng) :
  reachable s -> screen s = ReviewScreen -> missed s !! i = Some m ->
  let s1 := jumpToMissed m s in
  dispatch (ClickMissed i) s g = (s1, g)
  /\ loading s1 = false /\ truthy (error s1) = false /\ showReview s1 = false
  /\ submitted s1 = false /\ current s1 = Some m /\ 0 <= index s1 < total s
  /\ Question_wf m.
Proof.
  intros Hr Hscr Hm. cbv zeta.
  destruct (screen_ReviewScreen_inv s Hscr) as (Hl & He & _ & _).
  assert (Hin : m ∈ questions s).
  { apply (missed_elem_of s m). apply list_elem_of_lookup. eauto. }
  destruct (reachable_session_inv s Hr) as (I1 & _).
  destruct (reachable_page_inv s Hr) as (W & _).
  unfold dispatch. rewrite Hscr, Hm.
  split_and!; try done.
  - by apply jumpToMissed_current.
  - destruct (jumpToMissed_index m s Hin) as [? _]. lia.
  - destruct (jumpToMissed_index m s Hin) as [? _]. lia.
  - rewrite Forall_forall in W. by apply W.
Qed.

(** X17. Opening a missed question from the review and answering it
    correctly counts as one more attempt and one more correct answer,
    but the question stays recorded as missed and stays in the review
    list. *)
Theorem revisit_counts_again (s : State) (i : nat) (m : Question.t) (g : Rng) :
  reachable s -> screen s = ReviewScreen -> missed s !! i = Some m ->
  let c := Z.to_nat (Question.correctIndex m) in
  let s' := (run (ClickMissed i :: answerWith c) s g).1 in
  correctCount s' = correctCount s + 1
  /\ answeredCount s' = answeredCount s + 1
  /\ incorrectIds s' = incorrectIds s
  /\ questions s' = questions s
  /\ m ∈ missed s'.
Proof.
  intros Hr Hscr Hm. cbv zeta.
  destruct (open_missed s i m g Hr Hscr Hm) as (Hd & Hl & He & Hrv & Hs & Hq & Hi & [H4 Hci]).
  assert (Hc : answersCorrectly m (Z.to_nat (Question.correctIndex m)) = true).
  { unfold answersCorrectly. apply bool_decide_eq_true. rewrite Hci.
    by destruct (Question.correctChoice m). }
  change (ClickMissed i :: answerWith (Z.to_nat (Question.correctIndex m)))
    with ([ClickMissed i] ++ answerWith (Z.to_nat (Question.correctIndex m))).
  rewrite run_app. cbn [run]. unfold mbind, Rand_bind. rewrite Hd. cbn [mret Rand_ret fst snd].
  rewrite (answer_step _ m) by (try done; rewrite H4, Hci; destruct (Question.correctChoice m); cbn; lia).
  cbn [fst].
  destruct (answered_fields m (Z.to_nat (Question.correctIndex m)) (jumpToMissed m s))
    as (Fq & _ & _ & _ & _ & _ & _ & Fa & Fc & Fi & _).
  rewrite Hc in Fc, Fi.
  split_and!; try done.
  apply missed_elem_of. rewrite Fq, Fi. apply (missed_elem_of s m).
  apply list_elem_of_lookup. eauto.
Qed.

Lemma revisit_counts_again_witness :
  reachable sampleMissed /\ screen sampleMissed = ReviewScreen
  /\ missed sampleMissed !! 0%nat = Some (mapRow (sampleRow "r1" easy A))
  /\ correctCount (run (ClickMissed 0 :: answerWith 0) sampleMissed sampleRng).1
     = correctCount sampleMissed + 1.
Proof.
  assert (Hs : screen sampleMissed = ReviewScreen) by (vm_compute; reflexivity).
  assert (Hm : missed sampleMissed !! 0%nat = Some (mapRow (sampleRow "r1" easy A)))
    by (vm_compute; reflexivity).
  split; [exact sampleMissed_reachable|]. split; [exact Hs|]. split; [exact Hm|].
  exact (proj1 (revisit_counts_again sampleMissed 0 _ sampleRng sampleMissed_reachable Hs Hm)).
Defined.

Lemma keepsSession_ok (evs : list Event) :
  Forall (fun ev => keepsSession ev = true) evs -> Forall event_ok evs.
Proof. intros H. apply (Forall_impl _ _ _ H). by intros []. Qed.

(** From a missed question to the end of the quiz with correct answers. *)
Lemma revisit_to_end (s : State) (m : Question.t) (g : Rng) :
  reachable s -> screen s = ReviewScreen -> missed s !! 0%nat = Some m ->
  exists cs s',
    run (ClickMissed 0 :: concat (answerWith <$> cs)) s g = (s', g)
    /\ screen s' = ReviewScreen /\ questions s' = questions s
    /\ sessionId s' = sessionId s /\ incorrectIds s' = incorrectIds s
    /\ correctCount s + 1 <= correctCount s'.
Proof.
  intros Hr Hscr Hm.
  destruct (open_missed s 0 m g Hr Hscr Hm) as (Hd & Hl & He & Hrv & Hs & Hq & Hi & _).
  destruct (reachable_page_inv s Hr) as (W & _).
  set (s1 := jumpToMissed m s) in *.
  set (rest := drop (Z.to_nat (index s1)) (questions s1)).
  assert (Hrest : rest <> []).
  { unfold rest. intros Hnil. apply (f_equal length) in Hnil.
    rewrite length_drop in Hnil. unfold total in Hi.
    change (questions s1) with (questions s) in *. cbn [length] in Hnil. lia. }
  assert (Wrest : Forall Question_wf rest).
  { apply (Forall_drop _ _ _ W). }
  destruct (correctClicks_spec rest Wrest) as (C1 & C2 & C3 & C4).
  destruct (pass_from rest (correctClicks rest) s1 g) as (s' & Hrun & G); try done; [lia|].
  destruct G as (Gq & Gsess & _ & _ & _ & Gl & Ge & Gr & Gi & _ & Gc & Gids).
  exists (correctClicks rest), s'.
  change (ClickMissed 0 :: concat (answerWith <$> correctClicks rest))
    with ([ClickMissed 0] ++ concat (answerWith <$> correctClicks rest)).
  rewrite run_app. cbn [run]. unfold mbind, Rand_bind. rewrite Hd. cbn [mret Rand_ret fst snd].
  split; [done|]. rewrite C3 in Gc. rewrite C4 in Gids.
  assert (0 < length rest)%nat by (destruct rest; [done | cbn; lia]).
  split_and!; try done; [|change (correctCount s1) with (correctCount s) in Gc; lia].
  assert (Hcur : exists q, current s' = Some q).
  { unfold current, at_index. rewrite Gq, Gi.
    change (total s1) with (total s). change (questions s1) with (questions s).
    unfold total in *. destruct (Z.ltb_spec (Z.of_nat (length (questions s)) - 1) 0); [lia|].
    apply lookup_lt_is_Some_2. lia. }
  destruct Hcur as [q Hcur]. apply (screen_ReviewScreen s' q); try done. by rewrite Ge.
Qed.

(** X18. The review score is not bounded by the number of questions:
    from any review that lists a missed question, clicks inside the same
    session (reopening a missed question and answering from there to the
    end) lead back to the review with the same questions and the same
    missed list but a correct count raised by any given amount, which
    the review shows over the unchanged total. *)
Theorem review_score_unbounded (s : State) (n : nat) (g : Rng) :
  reachable s -> screen s = ReviewScreen -> missed s <> [] ->
  exists evs,
    let s' := (run evs s g).1 in
    Forall (fun ev => keepsSession ev = true) evs
    /\ reachable s' /\ screen s' = ReviewScreen
    /\ questions s' = questions s /\ sessionId s' = sessionId s
    /\ missed s' = missed s
    /\ correctCount s + Z.of_nat n <= correctCount s'
    /\ rv_score (renderReview s') = (correctCount s', total s).
Proof.
  intros Hr Hscr Hne. cbv zeta.
  assert (Hmain : exists evs s',
             run evs s g = (s', g) /\ Forall (fun ev => keepsSession ev = true) evs
             /\ screen s' = ReviewScreen /\ questions s' = questions s
             /\ sessionId s' = sessionId s /\ incorrectIds s' = incorrectIds s
             /\ correctCount s + Z.of_nat n <= correctCount s').
  { induction n as [|n (evs & s1 & Hrun & Hev & Hscr1 & Hq1 & Hsess1 & Hids1 & Hc1)].
    - exists [], s. split_and!; try done. lia.
    - assert (Hr1 : reachable s1).
      { replace s1 with (run evs s g).1 by (by rewrite Hrun).
        by apply reachable_run, keepsSession_ok. }
      assert (Hm1 : missed s1 = missed s) by (unfold missed; by rewrite Hq1, Hids1).
      destruct (missed s) as [|m ms] eqn:Hms; [done|].
      destruct (revisit_to_end s1 m g Hr1 Hscr1) as (cs & s2 & Hrun2 & G); [by rewrite Hm1|].
      destruct G as (Gscr & Gq & Gsess & Gids & Gc).
      exists (evs ++ ClickMissed 0 :: concat (answerWith <$> cs)), s2.
      rewrite run_app, Hrun. cbn [fst snd].
      split_and!; try done; try congruence; [|lia].
      apply Forall_app. split; [done|]. constructor; [done|].
      clear. induction cs as [|c cs IH]; [done|]. cbn. by repeat constructor. }
  destruct Hmain as (evs & s' & Hrun & Hev & Hscr' & Hq' & Hsess' & Hids' & Hc').
  exists evs. rewrite Hrun. cbn [fst].
  split_and!; try done.
  - replace s' with (run evs s g).1 by (by rewrite Hrun).
    by apply reachable_run, keepsSession_ok.
  - unfold missed. by rewrite Hq', Hids'.
  - cbn. unfold total. by rewrite Hq'.
Qed.

Lemma review_score_unbounded_witness :
  reachable sampleMissed /\ screen sampleMissed = ReviewScreen /\ missed sampleMissed <> []
  /\ exists evs,
       let s' := (run evs sampleMissed sampleRng).1 in
       Forall (fun ev => keepsSession ev = true) evs
       /\ reachable s' /\ screen s' = ReviewScreen
       /\ questions s' = questions sampleMissed /\ sessionId s' = sessionId sampleMissed
       /\ missed s' = missed sampleMissed
       /\ correctCount sampleMissed + Z.of_nat 2 <= correctCount s'
       /\ rv_score (renderReview s') = (correctCount s', total sampleMissed).
Proof.
  assert (Hs : screen sampleMissed = ReviewScreen) by (vm_compute; reflexivity).
  assert (Hm : missed sampleMissed <> []) by (vm_compute; discriminate).
  split; [exact sampleMissed_reachable|]. split; [exact Hs|]. split; [exact Hm|].
  exact (review_score_unbounded sampleMissed 2 sampleRng sampleMissed_reachable Hs Hm).
Defined.

(** X19. A session answered from its first question to its last ends on
    the review: every question was attempted once, the correct count is
    the number of choices that match, the review lists exactly the
    questions answered wrongly, in quiz order, and correct and missed
    add up to the number of questions. *)
Theorem full_pass_review (s : State) (cs : list nat) (g : Rng) :
  reachable s -> screen s = QuizScreen -> index s = 0 -> submitted s = false ->
  answeredCount s = 0 -> correctCount s = 0 -> incorrectIds s = [] ->
  length cs = length (questions s) -> Forall (fun c => (c < 4)%nat) cs ->
  let s' := (run (concat (answerWith <$> cs)) s g).1 in
  screen s' = ReviewScreen
  /\ questions s' = questions s /\ sessionId s' = sessionId s
  /\ answeredCount s' = total s
  /\ correctCount s' = scoreOf (questions s) cs
  /\ missed s' = missedOf (questions s) cs
  /\ correctCount s' + Z.of_nat (length (missed s')) = total s
  /\ rv_score (renderReview s') = (scoreOf (questions s) cs, total s).
Proof.
  intros Hr Hscr Hi Hs Ha Hc Hids Hlen Hcs. cbv zeta.
  destruct (reachable_page_inv s Hr) as (W & _).
  destruct (reachable_session_inv s Hr) as (I1 & _).
  assert (Hscr' : loading s = false /\ truthy (error s) = false /\ showReview s = false
                  /\ exists q, current s = Some q).
  { revert Hscr. unfold screen. destruct (loading s); [done|].
    destruct (truthy (error s)); [done|]. destruct (current s) as [q|]; [|done].
    destruct (showReview s); [done|]. eauto. }
  destruct Hscr' as (Hl & He & Hrv & q & Hq).
  assert (Hne : questions s <> []).
  { intros Hnil. unfold current, at_index in Hq. rewrite Hnil, Hi in Hq. done. }
  destruct (pass_from (questions s) cs s g) as (s' & Hrun & G); try done; [lia | by rewrite Hi |].
  destruct G as (Gq & Gsess & _ & _ & _ & Gl & Ge & Gr & Gi & Ga & Gc & Gids).
  rewrite Hrun. cbn [fst].
  rewrite Hids, recordMisses_fresh in Gids by (try done; intros x _; apply not_elem_of_nil).
  cbn [app] in Gids.
  assert (Hmissed : missed s' = missedOf (questions s) cs).
  { unfold missed. rewrite Gq, Gids. apply missed_of_sublist; [apply missedOf_sublist | done]. }
  pose proof (scoreOf_missedOf (questions s) cs Hlen) as Hsum.
  split_and!; try done.
  - assert (Hcur : exists q', current s' = Some q').
    { unfold current, at_index. rewrite Gq, Gi. unfold total.
      assert (0 < length (questions s))%nat by (destruct (questions s); [done | cbn; lia]).
      destruct (Z.ltb_spec (Z.of_nat (length (questions s)) - 1) 0); [lia|].
      apply lookup_lt_is_Some_2. lia. }
    destruct Hcur as [q' Hcur]. apply (screen_ReviewScreen s' q'); try done. by rewrite Ge.
  - unfold total. lia.
  - lia.
  - rewrite Hmissed, Gc, Hc. unfold total. lia.
  - cbn. unfold total. rewrite Gq, Gc, Hc. done.
Qed.

Lemma full_pass_review_witness :
  reachable sampleLoaded /\ screen sampleLoaded = QuizScreen
  /\ length [1%nat] = length (questions sampleLoaded)
  /\ missed (run (concat (answerWith <$> [1%nat])) sampleLoaded sampleRng).1
     = missedOf (questions sampleLoaded) [1%nat].
Proof.
  assert (Hs : screen sampleLoaded = QuizScreen) by (vm_compute; reflexivity).
  assert (Hlen : length [1%nat] = length (questions sampleLoaded)) by (vm_compute; reflexivity).
  split; [exact sampleLoaded_reachable|]. split; [exact Hs|]. split; [exact Hlen|].
  refine (proj1 (proj2 (proj2 (proj2 (proj2 (proj2
            (full_pass_review sampleLoaded [1%nat] sampleRng sampleLoaded_reachable Hs
               _ _ _ _ _ Hlen _))))))); try (vm_compute; reflexivity).
  repeat constructor.
Defined.

(** ** What the exam mode shows *)

(** X20. In exam mode the quiz screen, apart from its score badge, does
    not depend on the correct answers: two exam pages that agree on the
    settings, the position, the selection, the submitted flag and the
    text of the current question show the same screen, whatever the
    correct choices, the explanations, the counts and the recorded
    misses are. *)
Theorem exam_view_hides_answer (s1 s2 : State) (q1 q2 : Question.t) :
  mode s1 = exam -> mode s2 = exam ->
  quizSize s1 = quizSize s2 -> domain s1 = domain s2 -> saving s1 = saving s2 ->
  total s1 = total s2 -> index s1 = index s2 ->
  selectedIndex s1 = selectedIndex s2 -> submitted s1 = submitted s2 ->
  Question.domain q1 = Question.domain q2 -> Question.question q1 = Question.question q2 ->
  Question.difficulty q1 = Question.difficulty q2 ->
  Question.choices q1 = Question.choices q2 ->
  withoutScore (renderQuiz s1 q1) = withoutScore (renderQuiz s2 q2).
Proof.
  intros M1 M2 Hsz Hd Hsav Ht Hi Hsel Hsub Qd Qq Qdf Qc.
  unfold withoutScore, renderQuiz, renderFeedback, renderChoices, renderChoice, isExamLock.
  cbn. rewrite M1, M2, Hsz, Hd, Hsav, Ht, Hi, Hsel, Hsub, Qd, Qq, Qdf, Qc.
  rewrite !bool_decide_eq_true_2 by done. cbn [negb andb].
  f_equal; try (by destruct (submitted s2)).
Qed.

Lemma exam_view_hides_answer_witness :
  mode (sampleSession exam [sampleQuestion "e1" easy A]) = exam
  /\ withoutScore (renderQuiz (sampleSession exam [sampleQuestion "e1" easy A])
                     (sampleQuestion "e1" easy A))
     = withoutScore (renderQuiz (sampleSession exam [sampleQuestion "e1" easy D])
                       (sampleQuestion "e1" easy D)).
Proof.
  split; [reflexivity|].
  apply exam_view_hides_answer; reflexivity.
Defined.

(** ** The progress bar *)

Lemma roundedPercent_table :
  forallb (fun t =>
    forallb (fun i =>
      let p := roundedPercent (Z.of_nat i + 1) (Z.of_nat t) in
      (0 <? p) && (p <=? 100) && Bool.eqb (p =? 100) (S i =? t)%nat)
      (seq 0 t))
    (seq 1 50) = true.
Proof. vm_compute. reflexivity. Qed.

(** X21. On every reachable page with questions the width of the
    progress bar is a percentage between 1 and 100, and it is 100 exactly
    on the last question. *)
Theorem progressPct_range (s : State) :
  reachable s -> questions s <> [] ->
  0 < progressPct s <= 100 /\ (progressPct s = 100 <-> index s = total s - 1).
Proof.
  intros (W & B & C & D0 & D1 & E & F0 & F1)%reachable_page_inv Hne.
  specialize (F1 Hne).
  assert (Hsz : QuizSize_value (quizSize s) <= 50) by (by destruct (quizSize s)).
  unfold progressPct. fold (total s) in E.
  destruct (Z.eqb_spec (total s) 0) as [?|_]; [lia|].
  pose proof roundedPercent_table as T. rewrite forallb_forall in T.
  assert (Ht : In (Z.to_nat (total s)) (seq 1 50)) by (apply in_seq; lia).
  specialize (T _ Ht). rewrite forallb_forall in T.
  assert (Hi : In (Z.to_nat (index s)) (seq 0 (Z.to_nat (total s)))) by (apply in_seq; lia).
  specialize (T _ Hi). cbv zeta in T. rewrite !Z2Nat.id in T by lia.
  apply andb_prop in T as [[T1 T2]%andb_prop T3].
  apply Z.ltb_lt in T1. apply Z.leb_le in T2. apply Bool.eqb_prop in T3.
  split; [lia|].
  rewrite <- Z.eqb_eq, T3, Nat.eqb_eq. lia.
Qed.

Lemma progressPct_range_witness :
  reachable sampleLoaded /\ questions sampleLoaded <> []
  /\ 0 < progressPct sampleLoaded <= 100.
Proof.
  split; [exact sampleLoaded_reachable|]. split; [exact sampleLoaded_nonempty|].
  exact (proj1 (progressPct_range sampleLoaded sampleLoaded_reachable sampleLoaded_nonempty)).
Defined.

(** ** What is sent to the store *)

(** X22. [submit] sends an attempt and a stats update exactly when it
    counts one: when its guard returns nothing is sent and the state is
    unchanged; otherwise the increments sent are the increments of the
    answered and the correct count, the attempt carries the current
    question, the session token and a defined [is_correct] that tells
    whether the selected letter is the correct one, and the id of a wrong
    attempt is among the recorded misses afterwards. *)
Theorem submit_sends_what_it_counts (s : State) :
  match submit_sends s with
  | None => submit s = s
  | Some (a, u) =>
      answeredCount (submit s) = answeredCount s + StatsUpdate.attempts_inc u
      /\ correctCount (submit s) = correctCount s + StatsUpdate.correct_inc u
      /\ 0 <= StatsUpdate.correct_inc u <= StatsUpdate.attempts_inc u
      /\ StatsUpdate.attempts_inc u = 1
      /\ (exists q, current s = Some q /\ Attempt.question_id a = Question.id q
                    /\ Attempt.correct_choice a = Question.correctChoice q
                    /\ Attempt.domain a = Question.domain q
                    /\ StatsUpdate.domain u = Question.domain q)
      /\ Attempt.session_id a = sessionId s
      /\ (exists chosen, Attempt.selected_choice a = Some chosen
                         /\ Attempt.is_correct a
                            = Some (bool_decide (chosen = Attempt.correct_choice a))
                         /\ StatsUpdate.correct_inc u
                            = if bool_decide (chosen = Attempt.correct_choice a) then 1 else 0)
      /\ (Attempt.is_correct a = Some false ->
          Attempt.question_id a ∈ incorrectIds (submit s))
  end.
Proof.
  unfold submit_sends, submit.
  destruct (current s) as [q|] eqn:Hq; [|done].
  destruct (selectedIndex s) as [sel|]; [|done].
  destruct (submitted s); [done|].
  unfold attemptOf, statsUpdateOf, submit_end, submit_body.
  cbn [Attempt.question_id Attempt.correct_choice Attempt.domain Attempt.session_id
       Attempt.selected_choice Attempt.is_correct StatsUpdate.attempts_inc
       StatsUpdate.correct_inc StatsUpdate.domain].
  pose proof (record_miss (incorrectIds s) (Question.id q)) as [Hin _].
  destruct (decide (index s = total s - 1));
    destruct (bool_decide (indexToChoice sel = Question.correctChoice q)) eqn:Hb;
    cbn; split_and!; try done; try lia; try (by exists q);
    by exists (indexToChoice sel); rewrite Hb.
Qed.

(** ** The [domain_stats] table *)

(** X23. [upsertDomainStats] touches the row of the payload's domain
    only; if either request fails the table is unchanged; if both
    succeed that row holds the previous totals (0 for a new domain) plus
    the increments, and the last mode.  Rows stay stored under their
    domain with [0 <= total_correct <= total_attempts] when the
    increments are those of a submit. *)
Theorem upsertDomainStats_effect (payload : StatsUpdate.t) (now : string)
    (selectOk upsertOk : bool) (table : gmap string DomainStat.t) :
  let d := StatsUpdate.domain payload in
  let table' := upsertDomainStats payload now selectOk upsertOk table in
  (forall d', d' <> d -> table' !! d' = table !! d')
  /\ (selectOk && upsertOk = false -> table' = table)
  /\ (selectOk && upsertOk = true ->
      exists row, table' !! d = Some row
        /\ DomainStat.domain row = d
        /\ DomainStat.total_attempts row
           = default 0 (DomainStat.total_attempts <$> table !! d)
             + StatsUpdate.attempts_inc payload
        /\ DomainStat.total_correct row
           = default 0 (DomainStat.total_correct <$> table !! d)
             + StatsUpdate.correct_inc payload
        /\ DomainStat.last_mode row = Some (StatsUpdate.mode payload))
  /\ (0 <= StatsUpdate.correct_inc payload <= StatsUpdate.attempts_inc payload ->
      table_ok table -> table_ok table').
Proof.
  cbv zeta. unfold upsertDomainStats.
  destruct selectOk, upsertOk; cbn [negb andb nextDomainStat DomainStat.domain];
    split_and!; try done.
  - intros d' Hd. by rewrite lookup_insert_ne.
  - intros _. eexists. rewrite lookup_insert_eq. split; [done|]. by split_and!.
  - intros Hinc Hok d' r. destruct (decide (d' = StatsUpdate.domain payload)) as [->|Hne].
    + rewrite lookup_insert_eq. intros [= <-]. split; [done|].
      cbn [DomainStat.total_correct DomainStat.total_attempts].
      destruct (table !! StatsUpdate.domain payload) as [r0|] eqn:Hr0; simpl.
      * destruct (Hok _ _ Hr0) as [_ ?]. lia.
      * lia.
    + rewrite lookup_insert_ne by done. apply Hok.
Qed.

Lemma upsertDomainStats_effect_witness :
  let payload := {| StatsUpdate.domain := "Networking"; StatsUpdate.attempts_inc := 1;
                    StatsUpdate.correct_inc := 1; StatsUpdate.mode := balanced |} in
  true && true = true
  /\ exists row,
       upsertDomainStats payload "2024-01-01T00:00:00.000Z" true true ∅ !! "Networking"
       = Some row
       /\ DomainStat.total_attempts row = 1.
Proof.
  cbv zeta. split; [reflexivity|].
  destruct (proj1 (proj2 (proj2
              (upsertDomainStats_effect
                 {| StatsUpdate.domain := "Networking"; StatsUpdate.attempts_inc := 1;
                    StatsUpdate.correct_inc := 1; StatsUpdate.mode := balanced |}
                 "2024-01-01T00:00:00.000Z" true true ∅))) eq_refl)
    as (row & Hrow & _ & Ha & _).
  exists row. split; [exact Hrow | exact Ha].
Defined.

(** ** Percentages on binary64 *)

(** [binary_round_aux] on a positive mantissa of at least 53 bits with any
    rounding location: the result is at most one unit of its last place
    above [M * 2^E]. *)
Lemma binary_round_aux_upper_loc (pm : positive) (E : Z) (l : location) :
  let d := Z.pos (digits2_pos pm) in
  53 <= d -> - 1074 <= d + E - 53 -> d + E - 52 <= 971 ->
  exists m3 e3,
    binary_round_aux 53 1024 false (Z.pos pm) E l = S754_finite false m3 e3
    /\ E <= e3 <= d + E - 52
    /\ 2 ^ 52 <= Z.pos m3 < 2 ^ 53
    /\ Z.pos m3 * 2 ^ (e3 - E) <= Z.pos pm + 2 ^ (d - 53).
Proof.
  intros d Hd Hlo Hhi.
  pose proof (digits2_pos_bounds pm) as [Blo Bhi].
  assert (Ed : Z.pos (digits2_pos pm) = d) by reflexivity.
  clearbody d. rewrite Ed in Blo, Bhi.
  remember (d - 53) as n eqn:En.
  assert (Hpow : 2 ^ (d - 1) = 2 ^ 52 * 2 ^ n).
  { rewrite <- pow2_split by lia. f_equal. lia. }
  assert (Hpow' : 2 ^ d = 2 ^ 53 * 2 ^ n).
  { rewrite <- pow2_split by lia. f_equal. lia. }
  assert (Hn : 0 < 2 ^ n) by (apply Z.pow_pos_nonneg; lia).
  unfold binary_round_aux.
  rewrite shr_fexp_binary64 by lia. rewrite Ed, <- En.
  destruct (shr_m_shr (shr_record_of_loc (Z.pos pm) l) E n) as [Hm1 He1];
    [rewrite shr_m_of_loc; lia | lia |].
  destruct (shr (shr_record_of_loc (Z.pos pm) l) E n) as [mrs1 e1].
  rewrite shr_m_of_loc in Hm1. cbn [fst snd] in Hm1, He1.
  remember (shr_m mrs1) as m1 eqn:Em1.
  assert (Hm1lo : 2 ^ 52 <= m1).
  { rewrite Hm1. apply Z.div_le_lower_bound; lia. }
  assert (Hm1hi : m1 < 2 ^ 53).
  { rewrite Hm1. apply Z.div_lt_upper_bound; lia. }
  assert (Hm1M : m1 * 2 ^ n <= Z.pos pm).
  { rewrite Hm1. rewrite Z.mul_comm. apply Z.mul_div_le. lia. }
  pose proof (round_nearest_even_range m1 (loc_of_shr_record mrs1)) as Hr.
  destruct (round_nearest_even m1 (loc_of_shr_record mrs1)) as [|p2|p2]; [lia| |lia].
  destruct (Z_lt_le_dec (Z.pos p2) (2 ^ 53)) as [Hlt|Hge].
  - assert (Hd2 : Z.pos (digits2_pos p2) = 53) by (apply digits2_pos_unique; lia).
    rewrite shr_fexp_binary64 by lia. rewrite Hd2. simpl shr.
    cbv beta iota delta [shr_m].
    assert (Hle : (e1 <=? 1024 - 53) = true) by (apply Z.leb_le; lia).
    rewrite Hle. exists p2, e1. repeat split; try lia.
    replace (e1 - E) with n by lia. nia.
  - assert (Hp2 : Z.pos p2 = 2 ^ 53) by lia.
    assert (Hd2 : Z.pos (digits2_pos p2) = 54) by (apply digits2_pos_unique; lia).
    rewrite shr_fexp_binary64 by lia. rewrite Hd2.
    change (54 - 53) with 1. simpl shr.
    assert (Hp2' : p2 = 9007199254740992%positive) by lia.
    subst p2. cbv beta iota delta [shr_m shr_1 SpecFloat.iter_pos].
    assert (Hle : (e1 + 1 <=? 1024 - 53) = true) by (apply Z.leb_le; lia).
    rewrite Hle. eexists _, (e1 + 1). split; [reflexivity|]. repeat split; try lia.
    replace (e1 + 1 - E) with (1 + n) by lia.
    rewrite pow2_split by lia. change (2 ^ 1) with 2.
    change (2 ^ 53) with 9007199254740992 in *. nia.
Qed.

(** The quotient of two safe positive integers [c <= a] is a normal
    number [mw * 2^-kw] with [mw * 2^-kw <= 1 + 2^-51]. *)
Lemma div_of_int_rounded (c a : Z) :
  1 <= c <= a -> a <= MAX_SAFE_INTEGER ->
  exists (mw : positive) (kw : Z),
    div (of_int c) (of_int a) = S754_finite false mw (- kw)
    /\ 2 ^ 52 <= Z.pos mw < 2 ^ 53 /\ 0 <= kw <= 1000
    /\ Z.pos mw * 2 ^ 51 <= 2 ^ kw * (2 ^ 51 + 1).
Proof.
  intros Hc Ha.
  destruct (of_int_safe c) as (mc & kc & -> & Hkc & Hmc & Hmcr); [lia|].
  destruct (of_int_safe a) as (ma & ka & -> & Hka & Hma & Hmar); [lia|].
  assert (Hpkc : 0 < 2 ^ kc) by (apply Z.pow_pos_nonneg; lia).
  assert (Hpka : 0 < 2 ^ ka) by (apply Z.pow_pos_nonneg; lia).
  assert (Hca : Z.pos mc * 2 ^ ka <= Z.pos ma * 2 ^ kc) by (rewrite Hmc, Hma; nia).
  unfold div, SFdiv, SFdiv_core_binary, prec, emax. cbn [xorb].
  assert (Dc : Zdigits2 (Z.pos mc) = 53) by (apply digits2_pos_unique; lia).
  assert (Da : Zdigits2 (Z.pos ma) = 53) by (apply digits2_pos_unique; lia).
  rewrite Dc, Da. unfold fexp, emin.
  set (K := kc - ka + 53).
  replace (Z.min (Z.max (53 + - kc - (53 + - ka) - 53) (3 - 1024 - 53)) (- kc - - ka))
    with (- K) by (unfold K; lia).
  replace (- kc - - ka - - K) with 53 by (unfold K; lia).
  cbv beta iota zeta.
  rewrite Z.shiftl_mul_pow2 by lia.
  pose proof (Z.div_eucl_eq (Z.pos mc * 2 ^ 53) (Z.pos ma)) as Hdiv.
  pose proof (Z.mod_pos_bound (Z.pos mc * 2 ^ 53) (Z.pos ma)) as Hmod.
  unfold Z.modulo, Z.div in *.
  destruct (Z.div_eucl (Z.pos mc * 2 ^ 53) (Z.pos ma)) as [q r].
  specialize (Hdiv ltac:(lia)). specialize (Hmod ltac:(lia)).
  change (2 ^ 52) with 4503599627370496 in *.
  change (2 ^ 53) with 9007199254740992 in *.
  assert (Hq : 4503599627370496 <= q < 2 * 9007199254740992) by nia.
  destruct q as [|pq|pq]; try lia.
  pose proof (digits2_pos_bounds pq) as [Blo Bhi].
  remember (Z.pos (digits2_pos pq)) as d eqn:Ed.
  assert (Hd : 53 <= d <= 54).
  { split.
    - destruct (Z_le_gt_dec 53 d) as [|Hgt]; [assumption|].
      assert (2 ^ d <= 2 ^ 52) by (apply Z.pow_le_mono_r; lia).
      change (2 ^ 52) with 4503599627370496 in *. lia.
    - destruct (Z_le_gt_dec d 54) as [|Hgt]; [assumption|].
      assert (2 ^ 54 <= 2 ^ (d - 1)) by (apply Z.pow_le_mono_r; lia).
      change (2 ^ 54) with 18014398509481984 in *. lia. }
  assert (HK : 1 <= K <= 105) by (unfold K; lia).
  assert (HqK : Z.pos pq <= 2 ^ K).
  { assert (H2K : 2 ^ K * 2 ^ ka = 2 ^ kc * 9007199254740992).
    { change 9007199254740992 with (2 ^ 53). rewrite <- !pow2_split by lia.
      f_equal. unfold K. lia. }
    assert (H1 : Z.pos pq * Z.pos ma <= Z.pos mc * 9007199254740992) by lia.
    assert (H2 : Z.pos pq * Z.pos ma * 2 ^ ka <= Z.pos mc * 9007199254740992 * 2 ^ ka)
      by (apply Z.mul_le_mono_nonneg_r; lia).
    assert (H3 : Z.pos mc * 2 ^ ka * 9007199254740992
                 <= Z.pos ma * 2 ^ kc * 9007199254740992)
      by (apply Z.mul_le_mono_nonneg_r; lia).
    apply (Z.mul_le_mono_pos_r _ _ (Z.pos ma * 2 ^ ka)); [apply Z.mul_pos_pos; lia|].
    replace (2 ^ K * (Z.pos ma * 2 ^ ka)) with (Z.pos ma * (2 ^ K * 2 ^ ka)) by ring.
    rewrite H2K. lia. }
  destruct (binary_round_aux_upper_loc pq (- K)
              (new_location (Z.pos ma) r)) as (m3 & e3 & -> & He3 & Hm3 & Hub);
    rewrite <- ?Ed; try lia.
  rewrite <- Ed in He3, Hub.
  change (2 ^ 52) with 4503599627370496 in *.
  change (2 ^ 53) with 9007199254740992 in *.
  set (j := e3 - - K) in *.
  assert (Hj : 0 <= j <= 2) by (unfold j; lia).
  assert (Hpj : 0 < 2 ^ j) by (apply Z.pow_pos_nonneg; lia).
  assert (Hd53 : 2 ^ (d - 53) <= 2).
  { change 2 with (2 ^ 1) at 2. apply Z.pow_le_mono_r; lia. }
  assert (HjK : 52 + j <= K).
  { destruct (Z_le_gt_dec (52 + j) K) as [|Hgt]; [assumption|]. exfalso.
    assert (2 ^ K <= 2 ^ (51 + j)) by (apply Z.pow_le_mono_r; lia).
    assert (E51 : 2 ^ (51 + j) = 2251799813685248 * 2 ^ j).
    { rewrite pow2_split by lia. reflexivity. }
    assert (4503599627370496 * 2 ^ j <= Z.pos m3 * 2 ^ j)
      by (apply Z.mul_le_mono_nonneg_r; lia).
    lia. }
  exists m3, (K - j). replace (- (K - j)) with e3 by (unfold j; lia).
  split; [reflexivity|]. split; [lia|]. split; [lia|].
  assert (EK : 2 ^ K = 2 ^ (K - j) * 2 ^ j).
  { rewrite <- pow2_split by lia. f_equal. lia. }
  change (2 ^ 51) with 2251799813685248.
  assert (Hpkw : 0 < 2 ^ (K - j)) by (apply Z.pow_pos_nonneg; lia).
  remember (2 ^ (K - j)) as P. remember (2 ^ j) as J. remember (Z.pos m3) as W.
  remember (Z.pos pq) as Q. remember (2 ^ (d - 53)) as U.
  assert (W * J * 2251799813685248 <= P * J * (2251799813685248 + 1)) by lia.
  apply (Z.mul_le_mono_pos_r _ _ J); [lia|]. lia.
Qed.

Lemma mul_comm_finite (m1 m2 : positive) (e1 e2 : Z) :
  mul (S754_finite false m1 e1) (S754_finite false m2 e2)
  = mul (S754_finite false m2 e2) (S754_finite false m1 e1).
Proof. unfold mul, SFmul. by rewrite Pos.mul_comm, Z.add_comm. Qed.

(** [Math.round((c / a) * 100)] for safe integers [0 <= c <= a]. *)
Lemma roundedPercent_range (c a : Z) :
  0 <= c <= a -> 1 <= a <= MAX_SAFE_INTEGER -> 0 <= roundedPercent c a <= 100.
Proof.
  intros Hc Ha. unfold roundedPercent.
  destruct (Z.eq_dec c 0) as [->|Hc0].
  { destruct (of_int_safe a Ha) as (ma & ka & -> & _). done. }
  destruct (div_of_int_rounded c a) as (mw & kw & -> & Hmw & Hkw & Hub); [lia | lia |].
  destruct (of_int_safe 100) as (m100 & k100 & E100 & _); [unfold MAX_SAFE_INTEGER; lia|].
  pose proof (Math_round_mul_upper 100 mw kw) as Hr.
  rewrite E100 in *. rewrite mul_comm_finite.
  destruct Hr as [Ht0 Ht]; [unfold MAX_SAFE_INTEGER; lia | lia | lia |].
  split; [exact Ht0|].
  remember (Math_round (mul (S754_finite false m100 (- k100)) (S754_finite false mw (- kw))))
    as t eqn:Et. clear Et.
  assert (Hpkw : 0 < 2 ^ kw) by (apply Z.pow_pos_nonneg; lia).
  change (2 ^ 51) with 2251799813685248 in *.
  change (2 ^ 52) with 4503599627370496 in *.
  change (2 ^ 53) with 9007199254740992 in *.
  remember (2 ^ kw) as P. remember (Z.pos mw) as W.
  destruct (Z_le_gt_dec t 100) as [|Hgt]; [assumption|]. exfalso.
  assert (9007199254740992 * P * 101 <= 9007199254740992 * P * t) by nia.
  assert ((9007199254740992 + 2) * 100 * W * 2251799813685248
          <= (9007199254740992 + 2) * 100 * (P * (2251799813685248 + 1))) by nia.
  nia.
Qed.

(** ** The stats page *)

(** X25. On the stats page a percentage is between 0 and 100 whenever
    the correct answers do not exceed the attempts (the counts being
    safe integers), and 0 when nothing was attempted. *)
Theorem pct_range (correct attempts : Z) :
  0 <= correct <= attempts -> attempts <= MAX_SAFE_INTEGER ->
  0 <= pct correct attempts <= 100 /\ (attempts = 0 -> pct correct attempts = 0).
Proof.
  intros Hc Ha. unfold pct. destruct (Z.eqb_spec attempts 0) as [->|Hne]; [lia|].
  split; [|done]. apply roundedPercent_range; lia.
Qed.

Lemma pct_range_witness :
  0 <= 2 <= 3 /\ 3 <= MAX_SAFE_INTEGER /\ 0 <= pct 2 3 <= 100.
Proof.
  assert (H1 : 0 <= 2 <= 3) by lia.
  assert (H2 : 3 <= MAX_SAFE_INTEGER) by (unfold MAX_SAFE_INTEGER; lia).
  split; [exact H1|]. split; [exact H2|]. exact (proj1 (pct_range 2 3 H1 H2)).
Defined.

Lemma overall_sums (stats : list DomainStat.t) :
  Forall (fun r => 0 <= DomainStat.total_correct r <= DomainStat.total_attempts r) stats ->
  forall a0 c0, 0 <= c0 <= a0 ->
    0 <= foldl (fun sum r => sum + DomainStat.total_correct r) c0 stats
      <= foldl (fun sum r => sum + DomainStat.total_attempts r) a0 stats.
Proof.
  induction 1 as [|r stats Hr _ IH]; intros a0 c0 H0; [done|].
  cbn [foldl]. apply IH. lia.
Qed.

(** X26. The overview of the stats page: when every row has
    [0 <= total_correct <= total_attempts], the summed correct answers
    do not exceed the summed attempts and the overall accuracy is between
    0 and 100 (0 for an empty table). *)
Theorem overall_range (stats : list DomainStat.t) :
  Forall (fun r => 0 <= DomainStat.total_correct r <= DomainStat.total_attempts r) stats ->
  0 <= (overall stats).1.2 <= (overall stats).1.1
  /\ ((overall stats).1.1 <= MAX_SAFE_INTEGER -> 0 <= (overall stats).2 <= 100)
  /\ (stats = [] -> overall stats = (0, 0, 0)).
Proof.
  intros Hok. pose proof (overall_sums stats Hok 0 0 ltac:(lia)) as Hs.
  unfold overall. cbn [fst snd]. split; [exact Hs|]. split.
  - intros Hsafe. unfold pct.
    destruct (Z.eqb_spec (foldl (fun sum r => sum + DomainStat.total_attempts r) 0 stats) 0);
      [lia|]. apply roundedPercent_range; lia.
  - by intros ->.
Qed.

Lemma overall_range_witness :
  let stats := [ {| DomainStat.domain := "Networking"; DomainStat.total_attempts := 3;
                    DomainStat.total_correct := 2; DomainStat.last_mode := Some exam;
                    DomainStat.updated_at := "2024-01-01T00:00:00.000Z" |} ] in
  Forall (fun r => 0 <= DomainStat.total_correct r <= DomainStat.total_attempts r) stats
  /\ 0 <= (overall stats).1.2 <= (overall stats).1.1.
Proof.
  cbv zeta.
  assert (H : Forall (fun r => 0 <= DomainStat.total_correct r <= DomainStat.total_attempts r)
                [ {| DomainStat.domain := "Networking"; DomainStat.total_attempts := 3;
                     DomainStat.total_correct := 2; DomainStat.last_mode := Some exam;
                     DomainStat.updated_at := "2024-01-01T00:00:00.000Z" |} ]).
  { constructor; [cbn; lia | constructor]. }
  split; [exact H|]. exact (proj1 (overall_range _ H)).
Defined.

(** ** Starting over *)





(** ** A failed load on the screen *)

(** X28. After a failed load the page shows the error screen with the
    message, unless the message is empty: then it shows the "No questions
    found" screen for the current mode and domain. *)
Theorem failed_load_view (m : Mode) (message sess : string) (s : State) (g : Rng) :
  render (loadQuestions m (inl message) sess s g).1
  = if decide (message = ""%string) then VNoQuestions (mode s) (domain s)
    else VError message.
Proof.
  unfold loadQuestions, render, truthy, current, at_index. cbn.
  destruct (decide (message = ""%string)) as [->|Hne].
  - cbn. by destruct (index s <? 0).
  - by rewrite bool_decide_eq_false_2.
Qed.
